(** * Figma-Context-MCP: the helpers of [src/utils/common.ts]

    A shallow embedding of the pure helpers of [src/utils/common.ts]
    ([removeEmptyKeys], [hexToRgba], [convertColor], [formatRGBAColor],
    [generateVarId], [generateCSSShorthand], [parsePaint], [isVisible]) and
    of [maskApiKey] and [getServerConfig] of [src/config.ts], the properties
    the specification states about the helpers, and further properties of
    the code.

    - Numbers. JavaScript's Number type is IEEE 754 binary64; it is modelled
      by Rocq's primitive [float], whose operations are the same binary64
      operations, specified by [Prim2SF] and the [SpecFloat] functions. The
      built-ins the helpers call ([Math.round], [Math.floor], [Math.min],
      [Math.max], [<<], [Number.prototype.toString], [parseInt], string
      indexing) are defined in [Module JS] after ECMA-262.
    - Strings are sequences of code units below 256 ([string]).
    - An optional parameter or field is an [option]; [None] is [undefined].
    - An object is the list of its own properties in enumeration order, an
      array the list of its elements; the prototype of an object is not part
      of the model.
    - A [throw] is the [Throw] completion of the call.
    - [Math.random] is a state: the stream of the draws of a run and the
      position reached in it.
    - The console is the list of the lines written; [process.exit] is an
      ending of the call.

    The file has three parts: the embedding, the arithmetic of binary64 the
    proofs need, and the properties. *)

From Stdlib Require Import ZArith List String Ascii Bool Lia.
From Stdlib Require Import Floats QArith Qabs Qround.
Import ListNotations.

Set Warnings "-register-all".

Local Open Scope string_scope.
Local Open Scope Z_scope.

(** ** The JavaScript built-ins used by the helpers *)

Module JS.

(** *** Integers and binary64 *)

(** The binary64 value nearest to an integer (exact when [|k| <= 2^53]). *)
Definition Z2SF (k : Z) : spec_float := binary_normalize prec emax k 0 false.
Definition Z2f (k : Z) : float := SF2Prim (Z2SF k).

Definition signed (s : bool) (m : positive) : Z := if s then Zneg m else Zpos m.
Definition signed_zero (s : bool) : float := if s then neg_zero else zero.

(** An integral result [k] that keeps the sign of the argument when it is
    zero ([Math.round(-0.2)] is [-0]). *)
Definition of_int (s : bool) (k : Z) : float :=
  if k =? 0 then signed_zero s else Z2f k.

(** [Math.floor]: the greatest integral Number not above [x]. *)
Definition Math_floor (x : float) : float :=
  match Prim2SF x with
  | S754_finite s m e =>
      if 0 <=? e then x else of_int s (signed s m / 2 ^ (- e))
  | _ => x
  end.

(** [Math.round]: the integral Number closest to [x], ties towards
    [+Infinity]: [floor (x + 1/2)] computed exactly. *)
Definition Math_round (x : float) : float :=
  match Prim2SF x with
  | S754_finite s m e =>
      if 0 <=? e then x
      else of_int s ((2 * signed s m + 2 ^ (- e)) / 2 ^ (1 - e))
  | _ => x
  end.

(** [Math.max] and [Math.min]: NaN if an argument is NaN; [+0] is larger
    than [-0]. *)
Definition Math_max (x y : float) : float :=
  if is_nan x || is_nan y then nan
  else if (x <? y)%float then y
  else if (y <? x)%float then x
  else if get_sign x then y else x.

Definition Math_min (x y : float) : float :=
  if is_nan x || is_nan y then nan
  else if (x <? y)%float then x
  else if (y <? x)%float then y
  else if get_sign x then x else y.

(** [ToInt32]: truncate, then wrap modulo [2^32] into [-2^31, 2^31). *)
Definition truncate (x : spec_float) : Z :=
  match x with
  | S754_finite s m e =>
      if 0 <=? e then signed s m * 2 ^ e else Z.quot (signed s m) (2 ^ (- e))
  | _ => 0
  end.

Definition wrap32 (z : Z) : Z :=
  let r := z mod 2 ^ 32 in if r <? 2 ^ 31 then r else r - 2 ^ 32.

Definition ToInt32 (x : float) : Z := wrap32 (truncate (Prim2SF x)).

(** [x << count] for a literal [count] in 0..31. *)
Definition shl (x : float) (count : Z) : float :=
  Z2f (wrap32 (ToInt32 x * 2 ^ count)).

(** The value of an integral Number ([None] when not integral or not
    finite). *)
Definition to_integer (x : spec_float) : option Z :=
  match x with
  | S754_zero _ => Some 0
  | S754_finite s m e =>
      if 0 <=? e then Some (signed s m * 2 ^ e)
      else if Zpos m mod 2 ^ (- e) =? 0 then Some (signed s m / 2 ^ (- e))
      else None
  | _ => None
  end.

(** *** Digits *)

Definition digit_char (d : Z) : ascii :=
  if d <? 10 then ascii_of_nat (Z.to_nat (48 + d))
  else ascii_of_nat (Z.to_nat (87 + d)).

(** Digits of a non-negative integer in [radix], most significant first,
    pushed in front of [acc]. *)
Fixpoint to_radix (fuel : nat) (radix n : Z) (acc : string) : string :=
  match fuel with
  | O => acc
  | S fuel' =>
      let acc' := String (digit_char (n mod radix)) acc in
      if n / radix =? 0 then acc' else to_radix fuel' radix (n / radix) acc'
  end.

Definition digits_of (radix n : Z) : string :=
  to_radix (S (Z.to_nat (Z.log2 n))) radix n EmptyString.

Fixpoint repeat_char (c : ascii) (n : nat) : string :=
  match n with O => EmptyString | S n' => String c (repeat_char c n') end.

(** *** Number::toString (ECMA-262, 6.1.6.1.20) *)

Definition pow2 (n : Z) : Q := Qpower 2 n.
Definition pow10 (n : Z) : Q := Qpower 10 n.

(** The reals that round to the binary64 value [m * 2^e] (round to nearest,
    ties to even): from half way to the predecessor up to half way to the
    successor, the ends included when [m] is even. *)
Record interval := { lo : Q; hi : Q; closed : bool }.

Definition rounding_interval (m : positive) (e : Z) : interval :=
  let below := if (Zpos m =? 2 ^ 52) && (emin <? e) then (1 # 4)%Q else (1 # 2)%Q in
  {| lo := ((inject_Z (Zpos m) - below) * pow2 e)%Q;
     hi := ((inject_Z (Zpos m) + (1 # 2)) * pow2 e)%Q;
     closed := Z.even (Zpos m) |}.

Definition in_interval (i : interval) (d : Q) : bool :=
  if closed i then Qle_bool (lo i) d && Qle_bool d (hi i)
  else negb (Qle_bool d (lo i)) && negb (Qle_bool (hi i) d).

(** [n0] with [10^(n0-1) <= v < 10^n0], from an estimate [n]. *)
Fixpoint decimal_exponent (fuel : nat) (v : Q) (n : Z) : Z :=
  match fuel with
  | O => n
  | S fuel' =>
      if negb (Qle_bool (pow10 (n - 1)) v) then decimal_exponent fuel' v (n - 1)
      else if Qle_bool (pow10 n) v then decimal_exponent fuel' v (n + 1)
      else n
  end.

(** A candidate [(n, s)] stands for the decimal [s * 10^(n-k)]. *)
Definition candidates (i : interval) (v : Q) (k n0 : Z) : list (Z * Z) :=
  flat_map (fun n =>
    let t := (v / pow10 (n - k))%Q in
    flat_map (fun s =>
      if (10 ^ (k - 1) <=? s) && (s <? 10 ^ k)
         && in_interval i (inject_Z s * pow10 (n - k))%Q
      then [(n, s)] else [])
      (if Qfloor t =? Qceiling t then [Qfloor t] else [Qfloor t; Qceiling t]))
    [n0 - 1; n0; n0 + 1].

Definition distance (v : Q) (k : Z) (c : Z * Z) : Q :=
  Qabs (inject_Z (snd c) * pow10 (fst c - k) - v)%Q.

(** The candidate closest to [v]; of two equally close ones the even [s]. *)
Definition closest (v : Q) (k : Z) (cs : list (Z * Z)) : option (Z * Z) :=
  fold_left (fun best c =>
    match best with
    | None => Some c
    | Some b =>
        match (distance v k c ?= distance v k b)%Q with
        | Lt => Some c
        | Eq => if Z.even (snd c) then Some c else Some b
        | Gt => Some b
        end
    end) cs None.

(** The least [k] (tried upwards from [k]) with a [k]-digit decimal in the
    rounding interval, and its [(n, s)]; 17 digits always suffice. *)
Fixpoint shortest (fuel : nat) (i : interval) (v : Q) (n0 k : Z)
  : option (Z * Z * Z) :=
  match fuel with
  | O => None
  | S fuel' =>
      match closest v k (candidates i v k n0) with
      | Some (n, s) => Some (k, n, s)
      | None => shortest fuel' i v n0 (k + 1)
      end
  end.

Definition exponent_part (n : Z) : string :=
  "e" ++ (if 0 <=? n - 1 then "+" else "-") ++ digits_of 10 (Z.abs (n - 1)).

Definition format_decimal (ds : string) (k n : Z) : string :=
  if (k <=? n) && (n <=? 21) then ds ++ repeat_char "0" (Z.to_nat (n - k))
  else if (0 <? n) && (n <=? 21) then
    substring 0 (Z.to_nat n) ds ++ "." ++ substring (Z.to_nat n) (Z.to_nat (k - n)) ds
  else if (-6 <? n) && (n <=? 0) then
    "0." ++ repeat_char "0" (Z.to_nat (- n)) ++ ds
  else if k =? 1 then ds ++ exponent_part n
  else substring 0 1 ds ++ "." ++ substring 1 (Z.to_nat (k - 1)) ds ++ exponent_part n.

Definition sign_string (s : bool) : string := if s then "-" else "".

(** [String(x)], as in a template literal [`${x}`]. *)
Definition Number_toString (x : float) : string :=
  match Prim2SF x with
  | S754_nan => "NaN"
  | S754_zero _ => "0"
  | S754_infinity s => sign_string s ++ "Infinity"
  | S754_finite s m e =>
      let v := (inject_Z (Zpos m) * pow2 e)%Q in
      let n0 := decimal_exponent 8 v ((Z.log2 (Zpos m) + e) * 30103 / 100000 + 1) in
      match shortest 17 (rounding_interval m e) v n0 1 with
      | Some (k, n, d) => sign_string s ++ format_decimal (digits_of 10 d) k n
      | None => EmptyString
      end
  end.

(** Digits after the point of [f / 2^p] in radix 16. *)
Fixpoint fraction16 (fuel : nat) (f p : Z) : string :=
  match fuel with
  | O => EmptyString
  | S fuel' =>
      if f =? 0 then EmptyString
      else String (digit_char (16 * f / 2 ^ p)) (fraction16 fuel' (16 * f mod 2 ^ p) p)
  end.

(** [x.toString(16)]. The helpers only apply it to integral, infinite or NaN
    values; for the other values ECMA-262 leaves the digits after the point
    to the implementation, and the exact expansion is taken here. *)
Definition Number_toString16 (x : float) : string :=
  match Prim2SF x with
  | S754_nan => "NaN"
  | S754_zero _ => "0"
  | S754_infinity s => sign_string s ++ "Infinity"
  | S754_finite s m e =>
      sign_string s ++
      (if 0 <=? e then digits_of 16 (Zpos m * 2 ^ e)
       else digits_of 16 (Zpos m / 2 ^ (- e)) ++
            (if Zpos m mod 2 ^ (- e) =? 0 then EmptyString
             else "." ++ fraction16 (Z.to_nat (- e)) (Zpos m mod 2 ^ (- e)) (- e)))
  end.

(** *** Strings *)

(** [s.slice(1)] *)
Definition slice1 (s : string) : string :=
  match s with EmptyString => EmptyString | String _ r => r end.

Definition upper_char (c : ascii) : ascii :=
  let n := nat_of_ascii c in
  if ((97 <=? n) && (n <=? 122))%nat then ascii_of_nat (n - 32) else c.

(** [s.toUpperCase()] on the code units below 128. *)
Fixpoint toUpperCase (s : string) : string :=
  match s with
  | EmptyString => EmptyString
  | String c r => String (upper_char c) (toUpperCase r)
  end.

(** [s.replace(c, "")] for a one-character pattern: the first occurrence
    is removed. *)
Fixpoint remove_first (c : ascii) (s : string) : string :=
  match s with
  | EmptyString => EmptyString
  | String d r => if Ascii.eqb c d then r else String d (remove_first c r)
  end.

(** [s[i]] used as a string operand: ["undefined"] out of range. *)
Definition index_string (s : string) (i : nat) : string :=
  match String.get i s with
  | Some c => String c EmptyString
  | None => "undefined"
  end.

(** [s[x]] for a Number [x]: the code unit at [x] when [x] is an integer
    index of [s], else undefined. *)
Definition index_number (s : string) (x : float) : option ascii :=
  match to_integer (Prim2SF x) with
  | Some k => if 0 <=? k then String.get (Z.to_nat k) s else None
  | None => None
  end.

(** *** parseInt(s, 16) *)

Definition is_white_space (c : ascii) : bool :=
  let n := nat_of_ascii c in
  (((9 <=? n) && (n <=? 13)) || (n =? 32) || (n =? 160))%nat.

Fixpoint trim_start (s : string) : string :=
  match s with
  | String c r => if is_white_space c then trim_start r else s
  | EmptyString => s
  end.

Definition hex_digit_value (c : ascii) : option Z :=
  let n := Z.of_nat (nat_of_ascii c) in
  if (48 <=? n) && (n <=? 57) then Some (n - 48)
  else if (97 <=? n) && (n <=? 102) then Some (n - 87)
  else if (65 <=? n) && (n <=? 70) then Some (n - 55)
  else None.

(** The value of the longest prefix of hexadecimal digits. *)
Fixpoint parse_hex_digits (s : string) (acc : option Z) : option Z :=
  match s with
  | String c r =>
      match hex_digit_value c with
      | Some d => parse_hex_digits r (Some (16 * match acc with Some a => a | None => 0 end + d))
      | None => acc
      end
  | EmptyString => acc
  end.

Definition strip_0x (s : string) : string :=
  match s with
  | String "0" (String "x" r) => r
  | String "0" (String "X" r) => r
  | _ => s
  end.

Definition parseInt16 (s : string) : float :=
  let s1 := trim_start s in
  let '(negative, s2) :=
    match s1 with
    | String "-" r => (true, r)
    | String "+" r => (false, r)
    | _ => (false, s1)
    end in
  match parse_hex_digits (strip_0x s2) None with
  | Some v => if negative then (- Z2f v)%float else Z2f v
  | None => nan
  end.

(** *** parseInt(s, 10) *)

Definition dec_digit_value (c : ascii) : option Z :=
  let n := Z.of_nat (nat_of_ascii c) in
  if (48 <=? n) && (n <=? 57) then Some (n - 48) else None.

(** The value of the longest prefix of decimal digits. *)
Fixpoint parse_dec_digits (s : string) (acc : option Z) : option Z :=
  match s with
  | String c r =>
      match dec_digit_value c with
      | Some d => parse_dec_digits r (Some (10 * match acc with Some a => a | None => 0 end + d))
      | None => acc
      end
  | EmptyString => acc
  end.

Definition parseInt10 (s : string) : float :=
  let s1 := trim_start s in
  let '(negative, s2) :=
    match s1 with
    | String "-" r => (true, r)
    | String "+" r => (false, r)
    | _ => (false, s1)
    end in
  match parse_dec_digits s2 None with
  | Some v => if negative then (- Z2f v)%float else Z2f v
  | None => nan
  end.

(** *** Slices and conditions *)

(** [s.slice(-n)]: the last [n] code units, all of [s] when it is shorter. *)
Definition slice_last (n : nat) (s : string) : string :=
  let from := (String.length s - n)%nat in
  substring from (String.length s - from) s.

(** An optional string used as a condition: [undefined] and [""] are
    falsy. *)
Definition truthy_string (s : option string) : bool :=
  match s with
  | Some (String _ _) => true
  | _ => false
  end.

(** An optional Number used as a condition: [undefined], [0], [-0] and NaN
    are falsy. *)
Definition truthy_number (x : option float) : bool :=
  match x with
  | Some x => negb (x =? 0)%float && negb (is_nan x)
  | None => false
  end.

End JS.

Import JS.

(** ** Data *)

(** [RGBA] of @figma/rest-api-spec: channels and alpha. *)
Module RGBA.
Record t := { r : float; g : float; b : float; a : float }.
End RGBA.

(** [ColorValue]: the intermediate [{hex, opacity}]. *)
Module ColorValue.
Record t := { hex : string; opacity : float }.
End ColorValue.

Module Vector.
Record t := { x : float; y : float }.
End Vector.

Module ColorStop.
Record t := { position : float; color : RGBA.t }.
End ColorStop.

(** A [Paint] as [parsePaint] reads it: the discriminant and the fields of
    the variants it handles; a field the object lacks is [None]
    ([undefined]). *)
Module Paint.
Record t := {
  type : string;
  color : option RGBA.t;
  opacity : option float;
  imageRef : option string;
  scaleMode : option string;
  gradientHandlePositions : option (list Vector.t);
  gradientStops : option (list ColorStop.t)
}.
End Paint.

(** The values [parsePaint] builds: an image object, a CSS color string (hex
    or rgba), or a gradient object whose stops are [{position, color}]. *)
Inductive SimplifiedFill :=
| FillImage (imageRef scaleMode : option string)
| FillColor (css : string)
| FillGradient (type : string)
               (gradientHandlePositions : option (list Vector.t))
               (gradientStops : list (float * ColorValue.t)).

(** Completion of a call: a value, or a thrown exception. *)
Inductive exn := Error (message : string) | TypeError.

Inductive completion (A : Type) :=
| Return (v : A)
| Throw (e : exn).
Arguments Return {A} v.
Arguments Throw {A} e.

(** JSON-like values, with [undefined]; an object is the list of its own
    properties in enumeration order. An own property may have the key
    ["__proto__"], as in an object that [JSON.parse] has built. The
    prototype of an object is not part of a value: [removeEmptyKeys] reads
    own properties only ([hasOwnProperty], [Object.keys]). *)
Inductive value :=
| VUndefined
| VNull
| VBool (b : bool)
| VNumber (x : float)
| VString (s : string)
| VArray (items : list value)
| VObject (props : list (string * value)).

(** A default parameter or destructuring default: used when the argument
    is [undefined]. *)
Definition default {A : Type} (d : A) (o : option A) : A :=
  match o with Some v => v | None => d end.

(** ** removeEmptyKeys *)

(** Storing the own property [key]: its value is replaced where the object
    has the key, and the property is added after the others where not. *)
Fixpoint define_property (result : list (string * value)) (key : string) (v : value)
  : list (string * value) :=
  match result with
  | [] => [(key, v)]
  | (k, w) :: rest =>
      if String.eqb k key then (k, v) :: rest else (k, w) :: define_property rest key v
  end.

(** [result[key] = v] on an object that [{}] has created. The key
    ["__proto__"] is not stored: it names the accessor of
    [Object.prototype], whose setter makes [v] the prototype of [result] when
    [v] is an object or [null] and does nothing otherwise, and no own
    property is created either way. Every other key becomes an own property
    (what [result] inherits under such a key is a writable data property). *)
Definition set_property (result : list (string * value)) (key : string) (v : value)
  : list (string * value) :=
  if String.eqb key "__proto__" then result else define_property result key v.

(** The test under which a cleaned value is kept. *)
Definition kept (cleanedValue : value) : bool :=
  match cleanedValue with
  | VUndefined => false
  | VArray [] => false
  | VObject [] => false
  | _ => true
  end.

Fixpoint removeEmptyKeys (input : value) : value :=
  match input with
  | VArray items => VArray (map removeEmptyKeys items)
  | VObject props =>
      VObject
        (fold_left
           (fun result kv =>
              let '(key, v) := kv in
              let cleanedValue := removeEmptyKeys v in
              if kept cleanedValue then set_property result key cleanedValue
              else result)
           props [])
  | _ => input
  end.

(** ** hexToRgba *)

(** The template literal [`rgba(${r}, ${g}, ${b}, ${validOpacity})`] is the
    concatenation of the pieces, the Numbers converted by [Number::toString]. *)
Definition hexToRgba (hex : string) (opacity : option float) : string :=
  let opacity := default 1%float opacity in
  let hex := remove_first "#" hex in
  let hex :=
    if (String.length hex =? 3)%nat then
      index_string hex 0 ++ index_string hex 0 ++ index_string hex 1 ++
      index_string hex 1 ++ index_string hex 2 ++ index_string hex 2
    else hex in
  let r := parseInt16 (substring 0 2 hex) in
  let g := parseInt16 (substring 2 2 hex) in
  let b := parseInt16 (substring 4 2 hex) in
  let validOpacity := Math_min (Math_max opacity 0) 1 in
  "rgba(" ++ Number_toString r ++ ", " ++ Number_toString g ++ ", " ++
  Number_toString b ++ ", " ++ Number_toString validOpacity ++ ")".

(** ** convertColor and formatRGBAColor *)

(** [a + b + c + d] associates to the left, as does [opacity * color.a * 100]. *)
Definition convertColor (color : RGBA.t) (opacity : option float) : ColorValue.t :=
  let opacity := default 1%float opacity in
  let r := Math_round (RGBA.r color * 255) in
  let g := Math_round (RGBA.g color * 255) in
  let b := Math_round (RGBA.b color * 255) in
  let a := (Math_round (opacity * RGBA.a color * 100) / 100)%float in
  let hex :=
    "#" ++ toUpperCase (slice1 (Number_toString16
                                  (shl 1 24 + shl r 16 + shl g 8 + b)%float)) in
  {| ColorValue.hex := hex; ColorValue.opacity := a |}.

Definition formatRGBAColor (color : RGBA.t) (opacity : option float) : string :=
  let opacity := default 1%float opacity in
  let r := Math_round (RGBA.r color * 255) in
  let g := Math_round (RGBA.g color * 255) in
  let b := Math_round (RGBA.b color * 255) in
  let a := (Math_round (opacity * RGBA.a color * 100) / 100)%float in
  "rgba(" ++ Number_toString r ++ ", " ++ Number_toString g ++ ", " ++
  Number_toString b ++ ", " ++ Number_toString a ++ ")".

(** ** generateVarId *)

(** [Math.random()]: the generator is a state; a call returns the next draw.
    The draws of a run are a stream, [next] the position in it. *)
Record Random := { draws : nat -> float; next : nat }.

Definition Math_random (rnd : Random) : float * Random :=
  (draws rnd (next rnd), {| draws := draws rnd; next := S (next rnd) |}).

Definition chars : string := "ABCDEFGHIJKLMNOPQRSTUVWXYZ0123456789".

(** [result += chars[randomIndex]] *)
Definition append_indexed (result : string) (c : option ascii) : string :=
  result ++ match c with Some c => String c EmptyString | None => "undefined" end.

(** The loop [for (let i = 0; i < 6; i++)], [n] iterations left. *)
Fixpoint random_token (n : nat) (result : string) (rnd : Random) : string * Random :=
  match n with
  | O => (result, rnd)
  | S n' =>
      let '(x, rnd') := Math_random rnd in
      let randomIndex := Math_floor (x * Z2f (Z.of_nat (String.length chars))) in
      random_token n' (append_indexed result (index_number chars randomIndex)) rnd'
  end.

(** Returns the identifier and the generator after the six draws. *)
Definition generateVarId (prefix : option string) (rnd : Random) : string * Random :=
  let prefix := default "var"%string prefix in
  let '(result, rnd') := random_token 6 EmptyString rnd in
  (prefix ++ "_" ++ result, rnd').

(** ** generateCSSShorthand *)

Module Sides.
Record t := { top : float; right : float; bottom : float; left : float }.
End Sides.

Module Options.
Record t := { ignoreZero : option bool; suffix : option string }.
(** The default [{}] of the second parameter. *)
Definition none : t := {| ignoreZero := None; suffix := None |}.
End Options.

(** [===] on Numbers is the IEEE equality [=?]; [undefined] is [None]. *)
Definition generateCSSShorthand (values : Sides.t) (options : Options.t) : option string :=
  let ignoreZero := default true (Options.ignoreZero options) in
  let suffix := default "px"%string (Options.suffix options) in
  let top := Sides.top values in
  let right := Sides.right values in
  let bottom := Sides.bottom values in
  let left := Sides.left values in
  if ignoreZero && (top =? 0)%float && (right =? 0)%float
     && (bottom =? 0)%float && (left =? 0)%float then None
  else if (top =? right)%float && (right =? bottom)%float && (bottom =? left)%float then
    Some (Number_toString top ++ suffix)
  else if (right =? left)%float then
    if (top =? bottom)%float then
      Some (Number_toString top ++ suffix ++ " " ++ Number_toString right ++ suffix)
    else
      Some (Number_toString top ++ suffix ++ " " ++ Number_toString right ++ suffix
            ++ " " ++ Number_toString bottom ++ suffix)
  else
    Some (Number_toString top ++ suffix ++ " " ++ Number_toString right ++ suffix
          ++ " " ++ Number_toString bottom ++ suffix ++ " " ++ Number_toString left ++ suffix).

(** ** parsePaint *)

Definition gradient_types : list string :=
  ["GRADIENT_LINEAR"; "GRADIENT_RADIAL"; "GRADIENT_ANGULAR"; "GRADIENT_DIAMOND"]%string.

(** [types.includes(t)] *)
Definition includes (types : list string) (t : string) : bool :=
  existsb (String.eqb t) types.

(** [raw.color!] only asserts to the type checker that the color is there:
    when it is [undefined], [convertColor] throws a [TypeError] on reading
    [color.r], as does [raw.gradientStops.map] on [undefined] stops. *)
Definition parsePaint (raw : Paint.t) : completion SimplifiedFill :=
  if String.eqb (Paint.type raw) "IMAGE" then
    Return (FillImage (Paint.imageRef raw) (Paint.scaleMode raw))
  else if String.eqb (Paint.type raw) "SOLID" then
    match Paint.color raw with
    | None => Throw TypeError
    | Some color =>
        let cv := convertColor color (Paint.opacity raw) in
        if (ColorValue.opacity cv =? 1)%float then Return (FillColor (ColorValue.hex cv))
        else Return (FillColor (formatRGBAColor color (Some (ColorValue.opacity cv))))
    end
  else if includes gradient_types (Paint.type raw) then
    match Paint.gradientStops raw with
    | None => Throw TypeError
    | Some stops =>
        Return (FillGradient (Paint.type raw) (Paint.gradientHandlePositions raw)
                  (map (fun stop =>
                          (ColorStop.position stop, convertColor (ColorStop.color stop) None))
                       stops))
    end
  else Throw (Error ("Unknown paint type: " ++ Paint.type raw)).

(** ** isVisible *)

Module Element.
Record t := { visible : option bool }.
End Element.

(** [element.visible ?? true] *)
Definition isVisible (element : Element.t) : bool :=
  match Element.visible element with
  | Some v => v
  | None => true
  end.

(** ** maskApiKey and getServerConfig ([src/config.ts]) *)

Definition maskApiKey (key : string) : string :=
  if (String.length key <=? 4)%nat then "****" else "****" ++ slice_last 4 key.

(** The arguments [yargs] has parsed: [--figma-api-key] and [--port]. *)
Module CliArgs.
Record t := { figma_api_key : option string; port : option float }.
End CliArgs.

(** The two variables read from [process.env]. *)
Module Env.
Record t := { FIGMA_API_KEY : option string; PORT : option string }.
End Env.

Module ConfigSources.
Record t := { figmaApiKey : string; port : string }.
End ConfigSources.

Module ServerConfig.
Record t := { figmaApiKey : string; port : float; configSources : ConfigSources.t }.
End ServerConfig.

(** What a call writes to the console, in order. *)
Inductive output :=
| console_log (line : string)
| console_error (line : string).

(** How a call ends: it returns, or [process.exit] ends the process. *)
Inductive ending (A : Type) :=
| Returns (v : A)
| Exits (code : Z).
Arguments Returns {A} v.
Arguments Exits {A} code.

(** [getServerConfig] after [yargs] has parsed the command line into [argv]
    (a parse that prints the help or the version does not return) and
    [dotenv] has filled in [env]. The texts of the messages stand as their
    UTF-8 bytes. *)
Definition getServerConfig (argv : CliArgs.t) (env : Env.t) (isStdioMode : bool)
  : list output * ending ServerConfig.t :=
  let '(figmaApiKey, keySource) :=
    if truthy_string (CliArgs.figma_api_key argv) then
      (default "" (CliArgs.figma_api_key argv), "cli")
    else if truthy_string (Env.FIGMA_API_KEY env) then
      (default "" (Env.FIGMA_API_KEY env), "env")
    else ("", "env") in
  let '(port, portSource) :=
    if truthy_number (CliArgs.port argv) then
      (default 3333%float (CliArgs.port argv), "cli")
    else if truthy_string (Env.PORT env) then
      (parseInt10 (default "" (Env.PORT env)), "env")
    else (3333%float, "default") in
  if negb (truthy_string (Some figmaApiKey)) then
    ([console_error "需要FIGMA_API_KEY（通过CLI参数--figma-api-key或.env文件提供）"],
     Exits 1)
  else
    let config :=
      {| ServerConfig.figmaApiKey := figmaApiKey;
         ServerConfig.port := port;
         ServerConfig.configSources :=
           {| ConfigSources.figmaApiKey := keySource;
              ConfigSources.port := portSource |} |} in
    (if isStdioMode then []
     else [console_log (String "010" "配置:");
           console_log ("- FIGMA_API_KEY: " ++ maskApiKey figmaApiKey
                        ++ " (来源: " ++ keySource ++ ")");
           console_log ("- PORT: " ++ Number_toString port
                        ++ " (来源: " ++ portSource ++ ")");
           console_log ""],
     Returns config).

(** * Vocabulary of the properties *)

(** When [===] holds of two Numbers: both zero (of any sign), or the same
    infinity, or the same finite value. *)
Definition SFeq_shape (x y : spec_float) : Prop :=
  match x, y with
  | S754_zero _, S754_zero _ => True
  | S754_infinity s1, S754_infinity s2 => s1 = s2
  | S754_finite s1 m1 e1, S754_finite s2 m2 e2 => s1 = s2 /\ m1 = m2 /\ e1 = e2
  | _, _ => False
  end.

(** How binary64 holds the integer [k]: sign [s], and a mantissa [m] and
    exponent [e <= 0] with [m = k * 2^(-e)]. *)
Definition holds (x : spec_float) (s : bool) (k : Z) : Prop :=
  exists m e, x = S754_finite s m e /\ bounded prec emax m e = true /\
              e <= 0 /\ Zpos m = k * 2 ^ (- e).

(** A representation of a value in [[0, K]]: a zero, or a positive finite
    number [m * 2^e] with [e <= 0] and [m <= K * 2^(-e)]. *)
Definition within (x : spec_float) (K : Z) : Prop :=
  match x with
  | S754_zero _ => True
  | S754_finite false m e => e <= 0 /\ Zpos m <= K * 2 ^ (- e)
  | _ => False
  end.

(** The upper-case hexadecimal digit of [d]. *)
Definition hex_digit (d : Z) : ascii :=
  match String.get (Z.to_nat d) "0123456789ABCDEF" with
  | Some c => c
  | None => "0"%char
  end.

(** A byte as two upper-case hexadecimal digits, padded with a zero. *)
Definition hex_byte (k : Z) : string :=
  String (hex_digit (k / 16)) (String (hex_digit (k mod 16)) EmptyString).

(** A channel in [[0, 1]], as JavaScript compares Numbers. *)
Definition unit_interval (x : float) : Prop :=
  (0 <=? x)%float = true /\ (x <=? 1)%float = true.

Definition red : RGBA.t := {| RGBA.r := 1; RGBA.g := 0; RGBA.b := 0; RGBA.a := 1 |}.

(** A color with channels strictly inside the interval. *)
Definition teal : RGBA.t :=
  {| RGBA.r := 0.125; RGBA.g := 0.5; RGBA.b := 0.75; RGBA.a := 0.5 |}.

(** The cleaned properties, before any is dropped. *)
Definition cleaned (props : list (string * value)) : list (string * value) :=
  map (fun kv => (fst kv, removeEmptyKeys (snd kv))) props.

(** The cleaned properties the loop stores: the value passes the test and
    the key is not ["__proto__"]. *)
Definition copied (kv : string * value) : bool :=
  negb (String.eqb (fst kv) "__proto__") && kept (snd kv).

(** The primitive values that are never dropped: [null], booleans, numbers
    and strings. *)
Definition primitive (v : value) : Prop :=
  match v with
  | VNull | VBool _ | VNumber _ | VString _ => True
  | _ => False
  end.

(** The six tags [parsePaint] is to handle. *)
Definition handled_types : list string :=
  ["IMAGE"; "SOLID"; "GRADIENT_LINEAR"; "GRADIENT_RADIAL"; "GRADIENT_ANGULAR";
   "GRADIENT_DIAMOND"]%string.

(** What the type [Paint] of @figma/rest-api-spec promises about the fields
    [parsePaint] reads: a [SOLID] paint has a color, a gradient paint has
    its stops. *)
Definition well_typed (raw : Paint.t) : Prop :=
  (Paint.type raw = "SOLID" -> Paint.color raw <> None) /\
  (In (Paint.type raw)
      ["GRADIENT_LINEAR"; "GRADIENT_RADIAL"; "GRADIENT_ANGULAR"; "GRADIENT_DIAMOND"]%string ->
   Paint.gradientStops raw <> None).

(** A paint of a variant [parsePaint] does not know. *)
Definition emoji_paint : Paint.t :=
  {| Paint.type := "EMOJI"; Paint.color := None; Paint.opacity := Some 1%float;
     Paint.imageRef := None; Paint.scaleMode := None;
     Paint.gradientHandlePositions := None; Paint.gradientStops := None |}.

(** The paint [raw] under another layer opacity. *)
Definition with_opacity (raw : Paint.t) (o : option float) : Paint.t :=
  {| Paint.type := Paint.type raw; Paint.color := Paint.color raw;
     Paint.opacity := o;
     Paint.imageRef := Paint.imageRef raw; Paint.scaleMode := Paint.scaleMode raw;
     Paint.gradientHandlePositions := Paint.gradientHandlePositions raw;
     Paint.gradientStops := Paint.gradientStops raw |}.

(** A [SOLID] paint of the given color and layer opacity. *)
Definition solid_paint (color : RGBA.t) (o : option float) : Paint.t :=
  {| Paint.type := "SOLID"; Paint.color := Some color; Paint.opacity := o;
     Paint.imageRef := None; Paint.scaleMode := None;
     Paint.gradientHandlePositions := None; Paint.gradientStops := None |}.

(** Red with alpha one half. *)
Definition half_red : RGBA.t :=
  {| RGBA.r := 1; RGBA.g := 0; RGBA.b := 0; RGBA.a := 0.5 |}.

(** A linear gradient from half-transparent red to teal, on a layer of
    opacity one quarter. *)
Definition red_to_teal : Paint.t :=
  {| Paint.type := "GRADIENT_LINEAR"; Paint.color := None;
     Paint.opacity := Some 0.25%float;
     Paint.imageRef := None; Paint.scaleMode := None;
     Paint.gradientHandlePositions :=
       Some [ {| Vector.x := 0; Vector.y := 0.5 |}; {| Vector.x := 1; Vector.y := 0.5 |} ];
     Paint.gradientStops :=
       Some [ {| ColorStop.position := 0; ColorStop.color := half_red |};
              {| ColorStop.position := 1; ColorStop.color := teal |} ] |}.

(** A representation of a value in [[0, K)]. *)
Definition below (x : spec_float) (K : Z) : Prop :=
  match x with
  | S754_zero _ => True
  | S754_finite false m e => e <= 0 /\ Zpos m < K * 2 ^ (- e)
  | _ => False
  end.

(** The contract of [Math.random]: every draw is in [[0, 1)]. *)
Definition valid_random (rnd : Random) : Prop :=
  forall n, (0 <=? draws rnd n)%float = true /\ (draws rnd n <? 1)%float = true.

(** The character the [i]-th draw from [rnd] on selects in [chars]. *)
Definition drawn (rnd : Random) (i : nat) : option ascii :=
  index_number chars
    (Math_floor (draws rnd (i + next rnd) * Z2f (Z.of_nat (String.length chars)))).

(** The generator after [n] more draws. *)
Definition advance (n : nat) (rnd : Random) : Random :=
  {| draws := draws rnd; next := n + next rnd |}.

(** A generator whose twelve first draws are pairwise different Numbers, the
    seventh to twelfth selecting the same characters as the first six. *)
Definition repeating : Random :=
  {| draws := fun n =>
       nth n [0.03125; 0.1875; 0.34375; 0.5; 0.65625; 0.8125;
              0.0322265625; 0.1884765625; 0.3447265625; 0.5009765625;
              0.6572265625; 0.8134765625]%float 0%float;
     next := 0 |}.

(** Pairwise different strings. *)
Fixpoint distinct (keys : list string) : bool :=
  match keys with
  | [] => true
  | k :: rest => negb (existsb (String.eqb k) rest) && distinct rest
  end.

(** The keys of every object are pairwise different, at every depth, as
    those of a JavaScript object are. *)
Fixpoint unique_keys (v : value) : bool :=
  match v with
  | VArray items => forallb unique_keys items
  | VObject props =>
      distinct (map fst props)
      && forallb (fun kv => let '(_, w) := kv in unique_keys w) props
  | _ => true
  end.

(** No object, at any depth, has a property whose value is [undefined], an
    empty array or an empty object. *)
Fixpoint compact (v : value) : bool :=
  match v with
  | VArray items => forallb compact items
  | VObject props => forallb (fun kv => let '(_, w) := kv in kept w && compact w) props
  | _ => true
  end.

(** No object, at any depth, has an own property with the key
    ["__proto__"]. *)
Fixpoint proto_free (v : value) : bool :=
  match v with
  | VArray items => forallb proto_free items
  | VObject props =>
      forallb (fun kv => let '(k, w) := kv in
                         negb (String.eqb k "__proto__") && proto_free w) props
  | _ => true
  end.

(** The six-digit notation a three-digit color stands for. *)
Definition doubled (c1 c2 c3 : ascii) : string :=
  string_of_list_ascii [c1; c1; c2; c2; c3; c3].

(** The integer a rounded channel [Math.round(c * 255)] is. *)
Definition channel (c : float) : Z :=
  match to_integer (Prim2SF (Math_round (c * 255))) with
  | Some k => k
  | None => 0
  end.

(** The integer the rounded percentage [Math.round(opacity * a * 100)] is. *)
Definition percent (opacity a : float) : Z :=
  match to_integer (Prim2SF (Math_round (opacity * a * 100))) with
  | Some j => j
  | None => 0
  end.

(** The decimal numeral of [j / 100] for [j] in 0..100: at most two digits
    after the point, none of them a trailing zero. *)
Definition two_decimals (j : Z) : string :=
  if j mod 100 =? 0 then digits_of 10 (j / 100)
  else digits_of 10 (j / 100) ++ "."
       ++ String (digit_char (j / 10 mod 10))
            (if j mod 10 =? 0 then EmptyString
             else String (digit_char (j mod 10)) EmptyString).

(** The color [rgba(r, g, b, j/100)] in CSS notation. *)
Definition css_rgba (r g b j : Z) : string :=
  "rgba(" ++ digits_of 10 r ++ ", " ++ digits_of 10 g ++ ", " ++ digits_of 10 b
  ++ ", " ++ two_decimals j ++ ")".

(** The four sides a CSS shorthand of one to four values stands for. *)
Definition expand_shorthand (vs : list float) : option Sides.t :=
  match vs with
  | [a] => Some {| Sides.top := a; Sides.right := a; Sides.bottom := a; Sides.left := a |}
  | [a; b] => Some {| Sides.top := a; Sides.right := b; Sides.bottom := a; Sides.left := b |}
  | [a; b; c] => Some {| Sides.top := a; Sides.right := b; Sides.bottom := c; Sides.left := b |}
  | [a; b; c; d] =>
      Some {| Sides.top := a; Sides.right := b; Sides.bottom := c; Sides.left := d |}
  | _ => None
  end.

(** The text of a shorthand: the values with their unit, separated by
    spaces. *)
Definition shorthand_text (suffix : string) (vs : list float) : string :=
  String.concat " " (map (fun x => Number_toString x ++ suffix) vs).

(** The four sides as they are printed. *)
Definition side_texts (s : Sides.t) : list string :=
  map Number_toString [Sides.top s; Sides.right s; Sides.bottom s; Sides.left s].

(** The same Number, or two Numbers that [===] holds of. *)
Definition same_number (x y : float) : Prop := x = y \/ (x =? y)%float = true.

Definition same_sides (s1 s2 : Sides.t) : Prop :=
  same_number (Sides.top s1) (Sides.top s2) /\
  same_number (Sides.right s1) (Sides.right s2) /\
  same_number (Sides.bottom s1) (Sides.bottom s2) /\
  same_number (Sides.left s1) (Sides.left s2).

(** What is checked of the Number [j / 100] for each [j] of 0..100: it is
    in [[0, 1]], it is printed as [two_decimals j], it is 1 only for
    [j = 100], and the clamp to [[0, 1]] does not change how it is printed. *)
Definition hundredth_ok (j : Z) : bool :=
  let x := (Z2f j / 100)%float in
  (0 <=? x)%float && (x <=? 1)%float
  && String.eqb (Number_toString x) (two_decimals j)
  && Bool.eqb (x =? 1)%float (j =? 100)
  && String.eqb (Number_toString (Math_min (Math_max x 0) 1)) (Number_toString x).

(** A color whose channels and alpha are in [[0, 1]]. *)
Definition unit_color (color : RGBA.t) : Prop :=
  unit_interval (RGBA.r color) /\ unit_interval (RGBA.g color) /\
  unit_interval (RGBA.b color) /\ unit_interval (RGBA.a color).

(** The color [#RRGGBB] in CSS notation. *)
Definition css_hex (r g b : Z) : string :=
  "#" ++ hex_byte r ++ hex_byte g ++ hex_byte b.

(** What is checked of each pair of characters, of codes [i] and [j]: when
    both are hexadecimal digits, of values [d1] and [d2], [parseInt] reads
    them as [16 * d1 + d2], a byte, and neither is ["#"]. *)
Definition hex_pair_ok (i j : Z) : bool :=
  let c1 := ascii_of_nat (Z.to_nat i) in
  let c2 := ascii_of_nat (Z.to_nat j) in
  match hex_digit_value c1, hex_digit_value c2 with
  | Some d1, Some d2 =>
      Leibniz.eqb (parseInt16 (String c1 (String c2 EmptyString))) (Z2f (16 * d1 + d2))
      && (0 <=? 16 * d1 + d2) && (16 * d1 + d2 <=? 255)
      && negb (Ascii.eqb "#" c1) && negb (Ascii.eqb "#" c2)
  | _, _ => true
  end.

Definition hex_pairs_ok (i : Z) : bool :=
  forallb (fun j => hex_pair_ok i (Z.of_nat j)) (seq 0 256).

(** * Binary64 arithmetic *)

(** ** Binary64 arithmetic on integers *)

Section Digits.

(** [m] has exactly [digits2_pos m] binary digits. *)
Lemma digits2_bounds (m : positive) :
  2 ^ (Zpos (digits2_pos m) - 1) <= Zpos m < 2 ^ Zpos (digits2_pos m).
Proof.
  induction m as [m IH|m IH|]; simpl digits2_pos.
  - rewrite Pos2Z.inj_succ, Z.pow_succ_r by lia.
    replace (Z.succ (Zpos (digits2_pos m)) - 1) with (Z.succ (Zpos (digits2_pos m) - 1)) by lia.
    rewrite Z.pow_succ_r by lia. lia.
  - rewrite Pos2Z.inj_succ, Z.pow_succ_r by lia.
    replace (Z.succ (Zpos (digits2_pos m)) - 1) with (Z.succ (Zpos (digits2_pos m) - 1)) by lia.
    rewrite Z.pow_succ_r by lia. lia.
  - simpl. lia.
Qed.

(** The number of digits is determined by the two powers around [m]. *)
Lemma digits2_unique (m : positive) (d : Z) :
  2 ^ (d - 1) <= Zpos m < 2 ^ d -> Zpos (digits2_pos m) = d.
Proof.
  intros [Hlo Hhi]. pose proof (digits2_bounds m) as [Hlo' Hhi'].
  assert (0 < d).
  { destruct (Z.ltb_spec 0 d); [assumption|].
    rewrite (Z.pow_neg_r 2 (d - 1)) in Hlo by lia.
    destruct (Z.eq_dec d 0) as [->|]; [simpl in Hhi; lia|].
    rewrite Z.pow_neg_r in Hhi by lia. lia. }
  destruct (Z.lt_trichotomy (Zpos (digits2_pos m)) d) as [Hlt|[Heq|Hgt]]; [|assumption|].
  - assert (2 ^ Zpos (digits2_pos m) <= 2 ^ (d - 1)) by (apply Z.pow_le_mono_r; lia). lia.
  - assert (2 ^ d <= 2 ^ (Zpos (digits2_pos m) - 1)) by (apply Z.pow_le_mono_r; lia). lia.
Qed.

Lemma digits2_mul_pow2 (m : positive) (n : Z) (M : positive) :
  0 <= n -> Zpos M = Zpos m * 2 ^ n ->
  Zpos (digits2_pos M) = Zpos (digits2_pos m) + n.
Proof.
  intros Hn HM. apply digits2_unique. rewrite HM.
  pose proof (digits2_bounds m) as [Hlo Hhi].
  replace (Zpos (digits2_pos m) + n - 1) with ((Zpos (digits2_pos m) - 1) + n) by lia.
  rewrite !Z.pow_add_r by lia.
  assert (0 < 2 ^ n) by (apply Z.pow_pos_nonneg; lia). nia.
Qed.

Lemma digits2_le (m : positive) (j : Z) :
  0 <= j -> Zpos m < 2 ^ j -> Zpos (digits2_pos m) <= j.
Proof.
  intros Hj Hm. pose proof (digits2_bounds m) as [Hlo _].
  destruct (Z.leb_spec (Zpos (digits2_pos m)) j); [assumption|].
  assert (2 ^ j <= 2 ^ (Zpos (digits2_pos m) - 1)) by (apply Z.pow_le_mono_r; lia). lia.
Qed.

End Digits.

Section Shift.

Lemma iter_pos_nat {A} (f : A -> A) (p : positive) (x : A) :
  SpecFloat.iter_pos f p x = Nat.iter (Pos.to_nat p) f x.
Proof.
  revert x. induction p as [p IH|p IH|]; intros x; simpl SpecFloat.iter_pos.
  - rewrite !IH, Pos2Nat.inj_xI. simpl Nat.iter.
    replace (Pos.to_nat p + (Pos.to_nat p + 0))%nat with (Pos.to_nat p + Pos.to_nat p)%nat by lia.
    rewrite Nat.iter_add. rewrite <- Nat.iter_succ_r. simpl. rewrite <- Nat.iter_succ_r. reflexivity.
  - rewrite !IH, Pos2Nat.inj_xO. simpl Nat.mul.
    replace (Pos.to_nat p + (Pos.to_nat p + 0))%nat with (Pos.to_nat p + Pos.to_nat p)%nat by lia.
    now rewrite Nat.iter_add.
  - reflexivity.
Qed.

(** One shift on a non-negative mantissa: halve, remember the bit that
    falls off and whether anything fell off before. *)
Lemma shr_1_spec (m : Z) (r s : bool) :
  0 <= m ->
  shr_1 {| shr_m := m; shr_r := r; shr_s := s |} =
  {| shr_m := m / 2; shr_r := Z.odd m; shr_s := r || s |}.
Proof.
  intros Hm. destruct m as [|[p|p|]|p]; try lia; simpl shr_1; f_equal.
  - apply Z.div_unique with 1; lia.
  - apply Z.div_unique with 0; lia.
Qed.

(** Shifting a mantissa that ends in [n] zero bits loses nothing. *)
Lemma shr_exact (n : nat) (m : Z) :
  0 <= m ->
  Nat.iter n shr_1 {| shr_m := m * 2 ^ Z.of_nat n; shr_r := false; shr_s := false |} =
  {| shr_m := m; shr_r := false; shr_s := false |}.
Proof.
  intros Hm. induction n as [|n IH].
  - simpl. now rewrite Z.mul_1_r.
  - rewrite Nat.iter_succ_r, shr_1_spec.
    + rewrite Nat2Z.inj_succ, Z.pow_succ_r by lia.
      replace (m * (2 * 2 ^ Z.of_nat n)) with (m * 2 ^ Z.of_nat n * 2) by ring.
      rewrite Z.div_mul by lia. rewrite Z.odd_mul, andb_false_r. exact IH.
    + apply Z.mul_nonneg_nonneg; [assumption | apply Z.pow_nonneg; lia].
Qed.

(** In general the mantissa is divided by [2^n], and the round bit is the
    last bit shifted out. *)
Lemma shr_iter_spec (n : nat) (m : Z) (r s : bool) :
  0 <= m ->
  shr_m (Nat.iter (S n) shr_1 {| shr_m := m; shr_r := r; shr_s := s |}) = m / 2 ^ Z.of_nat (S n) /\
  shr_r (Nat.iter (S n) shr_1 {| shr_m := m; shr_r := r; shr_s := s |}) = Z.odd (m / 2 ^ Z.of_nat n).
Proof.
  revert m r s. induction n as [|n IH]; intros m r s Hm.
  - change (Nat.iter 1 shr_1 ?x) with (shr_1 x). rewrite shr_1_spec by assumption.
    simpl. rewrite Z.div_1_r. split; [f_equal|reflexivity].
  - rewrite Nat.iter_succ_r, shr_1_spec by assumption.
    destruct (IH (m / 2) (Z.odd m) (r || s)) as [H1 H2]; [apply Z.div_pos; lia|].
    rewrite H1, H2. rewrite !Z.div_div by (try apply Z.pow_pos_nonneg; lia).
    rewrite <- !Z.pow_succ_r by lia. rewrite <- !Nat2Z.inj_succ. split; reflexivity.
Qed.

End Shift.

Section Rounding.

Lemma fexp_eq (e : Z) : fexp prec emax e = Z.max (e - 53) (-1074).
Proof. reflexivity. Qed.

Lemma pow2_pos (n : Z) : 0 <= n -> 0 < 2 ^ n.
Proof. intros. apply Z.pow_pos_nonneg; lia. Qed.

Lemma shr_pos (mrs : shr_record) (e n : Z) :
  0 < n -> shr mrs e n = (Nat.iter (Z.to_nat n) shr_1 mrs, e + n).
Proof.
  intros Hn. destruct n as [|p|p]; try lia. unfold shr.
  now rewrite iter_pos_nat, Z2Nat.inj_pos.
Qed.

Lemma shr_nonpos (mrs : shr_record) (e n : Z) : n <= 0 -> shr mrs e n = (mrs, e).
Proof. intros Hn. destruct n as [|p|p]; try lia; reflexivity. Qed.

(** What [bounded] says: at most 53 digits, and the exponent is the one
    the digits call for. *)
Lemma bounded_inv (m : positive) (e : Z) :
  bounded prec emax m e = true ->
  Z.max (Zpos (digits2_pos m) + e - 53) (-1074) = e /\ e <= 971.
Proof.
  unfold bounded, canonical_mantissa. rewrite andb_true_iff, fexp_eq.
  intros [H1 H2]. apply Z.eqb_eq in H1. apply Z.leb_le in H2.
  change (emax - prec) with 971 in H2. split; assumption.
Qed.

(** Rounding a mantissa that is a representable one with zero bits appended
    gives back that representable one. *)
Lemma binary_round_aux_exact (s : bool) (M m : positive) (E e : Z) :
  bounded prec emax m e = true -> E <= e -> Zpos M = Zpos m * 2 ^ (e - E) ->
  binary_round_aux prec emax s (Zpos M) E loc_Exact = S754_finite s m e.
Proof.
  intros Hb HE HM. pose proof (bounded_inv _ _ Hb) as [Hcan He].
  unfold binary_round_aux, shr_fexp. simpl Zdigits2.
  rewrite (digits2_mul_pow2 m (e - E) M) by (lia || assumption).
  rewrite fexp_eq. replace (Zpos (digits2_pos m) + (e - E) + E - 53)
    with (Zpos (digits2_pos m) + e - 53) by lia. rewrite Hcan.
  simpl shr_record_of_loc.
  assert (Hfirst : shr {| shr_m := Zpos M; shr_r := false; shr_s := false |} E (e - E) =
                   ({| shr_m := Zpos m; shr_r := false; shr_s := false |}, e)).
  { destruct (Z.eq_dec e E) as [->|Hne].
    - rewrite Z.sub_diag in *. rewrite shr_nonpos by lia. f_equal. f_equal. simpl in HM. lia.
    - rewrite shr_pos by lia. f_equal; [|lia].
      rewrite HM.
      replace (2 ^ (e - E)) with (2 ^ Z.of_nat (Z.to_nat (e - E))) by (now rewrite Z2Nat.id by lia).
      apply shr_exact. lia. }
  rewrite Hfirst. simpl loc_of_shr_record. simpl round_nearest_even. simpl Zdigits2.
  rewrite fexp_eq, Hcan, Z.sub_diag. simpl shr. simpl shr_m.
  cbv beta iota zeta. simpl shr_m. change (emax - prec) with 971.
  apply Z.leb_le in He. now rewrite He.
Qed.

Lemma iter_xO (m d : positive) : Zpos (Pos.iter xO m d) = Zpos m * 2 ^ Zpos d.
Proof.
  induction d as [|d IH] using Pos.peano_ind.
  - simpl. lia.
  - rewrite Pos.iter_succ, Pos2Z.inj_xO, IH, Pos2Z.inj_succ, Z.pow_succ_r by lia. ring.
Qed.

Lemma shl_align_spec (m : positive) (e e' : Z) :
  e' <= e -> shl_align m e e' = (Z.to_pos (Zpos m * 2 ^ (e - e')), Z.min e e').
Proof.
  intros He. unfold shl_align. destruct (e' - e) as [|d|d] eqn:Hd; try lia.
  - replace (e - e') with 0 by lia. rewrite Z.mul_1_r. simpl. f_equal. lia.
  - replace (e - e') with (Zpos d) by lia. rewrite <- iter_xO. simpl. f_equal. lia.
Qed.

Lemma shl_align_id (m : positive) (e e' : Z) : e <= e' -> shl_align m e e' = (m, e).
Proof.
  intros He. unfold shl_align. destruct (e' - e) as [|d|d] eqn:Hd; try lia; reflexivity.
Qed.

(** [binary_round] of any mantissa and exponent that denote a representable
    value gives its canonical representation. *)
Lemma binary_round_exact (s : bool) (M m : positive) (E e e0 : Z) :
  bounded prec emax m e = true -> e0 <= E -> e0 <= e ->
  Zpos M * 2 ^ (E - e0) = Zpos m * 2 ^ (e - e0) ->
  binary_round prec emax s M E = S754_finite s m e.
Proof.
  intros Hb H0E H0e Hval. pose proof (bounded_inv _ _ Hb) as [Hcan He].
  unfold binary_round.
  destruct (Z.le_gt_cases E e) as [HEe|HEe].
  - assert (HM : Zpos M = Zpos m * 2 ^ (e - E)).
    { replace (e - e0) with ((e - E) + (E - e0)) in Hval by lia.
      rewrite Z.pow_add_r in Hval by lia.
      pose proof (pow2_pos (E - e0)). nia. }
    rewrite (digits2_mul_pow2 m (e - E) M) by (lia || assumption).
    rewrite fexp_eq. replace (Zpos (digits2_pos m) + (e - E) + E - 53)
      with (Zpos (digits2_pos m) + e - 53) by lia. rewrite Hcan.
    rewrite shl_align_id by assumption. now apply binary_round_aux_exact.
  - assert (Hm : Zpos m = Zpos M * 2 ^ (E - e)).
    { replace (E - e0) with ((E - e) + (e - e0)) in Hval by lia.
      rewrite Z.pow_add_r in Hval by lia.
      pose proof (pow2_pos (e - e0)). nia. }
    rewrite <- (Z.add_simpl_r (Zpos (digits2_pos M)) (E - e)) at 1.
    rewrite <- (digits2_mul_pow2 M (E - e) m) by (lia || assumption).
    rewrite fexp_eq. replace (Zpos (digits2_pos m) - (E - e) + E - 53)
      with (Zpos (digits2_pos m) + e - 53) by lia. rewrite Hcan.
    rewrite shl_align_spec by lia. rewrite <- Hm. simpl Z.to_pos.
    rewrite Z.min_r by lia.
    apply binary_round_aux_exact; [assumption | lia |]. rewrite Z.sub_diag. simpl. lia.
Qed.

End Rounding.

(** ** Strings *)

Lemma append_assoc (s1 s2 s3 : string) : (s1 ++ s2) ++ s3 = s1 ++ s2 ++ s3.
Proof. induction s1 as [|c s1 IH]; simpl; [reflexivity | now rewrite IH]. Qed.

Lemma append_nil_r (s : string) : s ++ "" = s.
Proof. induction s as [|c s IH]; simpl; [reflexivity | now rewrite IH]. Qed.

Lemma append_inj_l (s t1 t2 : string) : s ++ t1 = s ++ t2 -> t1 = t2.
Proof. induction s as [|c s IH]; simpl; intros H; [assumption | injection H; auto]. Qed.

(** ** Comparisons of Numbers *)

Lemma SFeqb_shape x y : SFeqb x y = true <-> SFeq_shape x y.
Proof.
  unfold SFeqb, SFcompare, SFeq_shape.
  destruct x as [s1|s1| |s1 m1 e1], y as [s2|s2| |s2 m2 e2]; simpl;
    try (now split);
    try (destruct s1; simpl; (split; [discriminate | intros []]));
    try (destruct s2; simpl; (split; [discriminate | intros []])).
  - destruct s1, s2; split; intros; congruence.
  - change (PosDef.Pos.compare_cont Eq m1 m2) with (m1 ?= m2)%positive.
    destruct s1, s2; try (split; [discriminate | intuition discriminate]);
      destruct (e1 ?= e2) eqn:He; try (apply Z.compare_eq_iff in He);
      destruct (m1 ?= m2)%positive eqn:Hm; try (apply Pos.compare_eq_iff in Hm);
      simpl; split; try discriminate; try (intros; subst; tauto);
      intros (_ & Hm' & He'); subst;
      rewrite ?Z.compare_refl, ?Pos.compare_refl in *; discriminate.
Qed.

Lemma eqb_trans x y z :
  (x =? y)%float = true -> (y =? z)%float = true -> (x =? z)%float = true.
Proof.
  rewrite !FloatAxioms.eqb_spec, !SFeqb_shape. unfold SFeq_shape.
  destruct (Prim2SF x), (Prim2SF y), (Prim2SF z); intuition congruence.
Qed.

Lemma eqb_sym x y : (x =? y)%float = true -> (y =? x)%float = true.
Proof.
  rewrite !FloatAxioms.eqb_spec, !SFeqb_shape. unfold SFeq_shape.
  destruct (Prim2SF x), (Prim2SF y); intuition congruence.
Qed.

(** ** Integral Numbers *)

Section Integers.

Lemma holds_unique (x : spec_float) (k : positive) :
  holds x false (Zpos k) -> x = Z2SF (Zpos k).
Proof.
  intros (m & e & -> & Hb & He & Hm). unfold Z2SF, binary_normalize. symmetry.
  apply binary_round_exact with (e0 := e); try assumption; try lia.
  rewrite Z.sub_diag, Z.mul_1_r, Z.sub_0_l. exact (eq_sym Hm).
Qed.

Lemma Z2SF_holds (k : positive) : Zpos k < 2 ^ 53 -> holds (Z2SF (Zpos k)) false (Zpos k).
Proof.
  intros Hk. pose proof (digits2_bounds k) as [Hlo Hhi].
  pose proof (digits2_le k 53 ltac:(lia) Hk) as Hd.
  set (d := Zpos (digits2_pos k)) in *.
  assert (Hpos : 0 < Zpos k * 2 ^ (53 - d)) by (pose proof (pow2_pos (53 - d)); nia).
  destruct (Zpos k * 2 ^ (53 - d)) as [|m|m] eqn:Hm; try lia.
  assert (Hdm : Zpos (digits2_pos m) = 53).
  { rewrite (digits2_mul_pow2 k (53 - d) m) by lia. fold d. lia. }
  assert (Hb : bounded prec emax m (d - 53) = true).
  { unfold bounded, canonical_mantissa. rewrite fexp_eq, Hdm.
    change (emax - prec) with 971. apply andb_true_iff. split.
    - apply Z.eqb_eq. lia.
    - apply Z.leb_le. lia. }
  assert (Hholds : holds (S754_finite false m (d - 53)) false (Zpos k)).
  { exists m, (d - 53). repeat split; try assumption; try lia.
    replace (- (d - 53)) with (53 - d) by lia. congruence. }
  now rewrite <- (holds_unique _ _ Hholds).
Qed.

Lemma Prim2SF_Z2f (k : positive) :
  Zpos k < 2 ^ 53 -> Prim2SF (Z2f (Zpos k)) = Z2SF (Zpos k).
Proof.
  intros Hk. unfold Z2f. apply Prim2SF_SF2Prim.
  destruct (Z2SF_holds k Hk) as (m & e & -> & Hb & _). exact Hb.
Qed.

(** A Number whose representation holds [k] is [Z2f k]. *)
Lemma holds_Z2f (x : float) (k : positive) :
  holds (Prim2SF x) false (Zpos k) -> x = Z2f (Zpos k).
Proof.
  intros H. unfold Z2f. rewrite <- (holds_unique _ _ H). symmetry. apply SF2Prim_Prim2SF.
Qed.

Lemma pow2_shift (x y : Z) : x <= y -> y <= 0 -> 2 ^ (- y) * 2 ^ (y - x) = 2 ^ (- x).
Proof. intros. rewrite <- Z.pow_add_r by lia. f_equal. lia. Qed.

(** Adding two positive integers below [2^53] is exact. *)
Lemma add_pos_exact (a b : positive) :
  Zpos a + Zpos b < 2 ^ 53 ->
  (Z2f (Zpos a) + Z2f (Zpos b))%float = Z2f (Zpos a + Zpos b).
Proof.
  intros Hab. apply Prim2SF_inj.
  change (Zpos a + Zpos b) with (Zpos (a + b)) in *.
  rewrite add_spec, !Prim2SF_Z2f by lia.
  destruct (Z2SF_holds a ltac:(lia)) as (ma & ea & -> & Hba & Hea & Hma).
  destruct (Z2SF_holds b ltac:(lia)) as (mb & eb & -> & Hbb & Heb & Hmb).
  destruct (Z2SF_holds (a + b) Hab) as (m & e & -> & Hbm & He & Hm).
  unfold SF64add, SFadd. set (ez := Z.min ea eb).
  rewrite !shl_align_spec by lia. cbn [fst cond_Zopp].
  assert (Ha' : Zpos ma * 2 ^ (ea - ez) = Zpos a * 2 ^ (- ez)).
  { rewrite Hma, <- Z.mul_assoc, pow2_shift by lia. reflexivity. }
  assert (Hb' : Zpos mb * 2 ^ (eb - ez) = Zpos b * 2 ^ (- ez)).
  { rewrite Hmb, <- Z.mul_assoc, pow2_shift by lia. reflexivity. }
  pose proof (pow2_pos (- ez) ltac:(lia)) as Hpz.
  rewrite Ha', Hb'.
  destruct (Zpos a * 2 ^ (- ez)) as [|pa|pa] eqn:Hpa; try lia.
  destruct (Zpos b * 2 ^ (- ez)) as [|pb|pb] eqn:Hpb; try lia.
  simpl Z.to_pos. change (Zpos pa + Zpos pb) with (Zpos (pa + pb)).
  unfold binary_normalize.
  apply binary_round_exact with (e0 := Z.min ez e); try assumption; try lia.
  rewrite Pos2Z.inj_add, <- Hpa, <- Hpb, Hm, Pos2Z.inj_add.
  rewrite <- Z.mul_add_distr_r, <- !Z.mul_assoc, !pow2_shift by lia.
  replace (2 ^ (- ez) * 2 ^ (ez - Z.min ez e)) with (2 ^ (- Z.min ez e))
    by (rewrite <- Z.pow_add_r by lia; f_equal; lia).
  reflexivity.
Qed.

Lemma Z2f_0 : Z2f 0 = zero.
Proof. reflexivity. Qed.

Lemma add_zero_r (a : positive) :
  Zpos a < 2 ^ 53 -> (Z2f (Zpos a) + zero)%float = Z2f (Zpos a).
Proof.
  intros Ha. apply Prim2SF_inj. rewrite add_spec, Prim2SF_Z2f by lia.
  destruct (Z2SF_holds a Ha) as (ma & ea & -> & _). reflexivity.
Qed.

Lemma add_neg_zero_r (a : positive) :
  Zpos a < 2 ^ 53 -> (Z2f (Zpos a) + neg_zero)%float = Z2f (Zpos a).
Proof.
  intros Ha. apply Prim2SF_inj. rewrite add_spec, Prim2SF_Z2f by lia.
  destruct (Z2SF_holds a Ha) as (ma & ea & -> & _). reflexivity.
Qed.

(** Adding a non-negative integer to a positive one is exact. *)
Lemma add_exact (a b : Z) :
  0 < a -> 0 <= b -> a + b < 2 ^ 53 -> (Z2f a + Z2f b)%float = Z2f (a + b).
Proof.
  intros Ha Hb Hab. destruct a as [|a|a]; try lia. destruct b as [|b|b]; try lia.
  - rewrite Z2f_0, Z.add_0_r. apply add_zero_r. lia.
  - now apply add_pos_exact.
Qed.

Lemma wrap32_small (k : Z) : 0 <= k < 2 ^ 31 -> wrap32 k = k.
Proof.
  intros Hk. unfold wrap32. rewrite Z.mod_small by lia.
  destruct (Z.ltb_spec k (2 ^ 31)); lia.
Qed.

Lemma ToInt32_Z2f (k : Z) : 0 <= k < 2 ^ 31 -> ToInt32 (Z2f k) = k.
Proof.
  intros Hk. destruct k as [|k|k]; try lia; [reflexivity|].
  unfold ToInt32. rewrite Prim2SF_Z2f by lia.
  destruct (Z2SF_holds k ltac:(lia)) as (m & e & -> & _ & He & Hm).
  unfold truncate, signed. destruct (Z.leb_spec 0 e).
  - replace e with 0 in * by lia. simpl in Hm. rewrite wrap32_small; simpl; lia.
  - rewrite Hm, Z.quot_mul by (pose proof (pow2_pos (- e)); lia).
    now apply wrap32_small.
Qed.

Lemma to_integer_Z2f (k : Z) : 0 <= k < 2 ^ 53 -> to_integer (Prim2SF (Z2f k)) = Some k.
Proof.
  intros Hk. destruct k as [|k|k]; try lia; [reflexivity|].
  rewrite Prim2SF_Z2f by lia.
  destruct (Z2SF_holds k ltac:(lia)) as (m & e & -> & _ & He & Hm).
  unfold to_integer, signed. destruct (Z.leb_spec 0 e).
  - replace e with 0 in * by lia. simpl in Hm. f_equal. simpl. lia.
  - pose proof (pow2_pos (- e) ltac:(lia)).
    rewrite Hm, Z.mod_mul, Z.div_mul by lia. reflexivity.
Qed.

End Integers.

(** ** Products with a bounded value *)

Section Products.

Lemma round_nearest_even_bounds (m : Z) (l : location) :
  m <= round_nearest_even m l <= m + 1.
Proof.
  destruct l as [|[| |]]; simpl; try lia. destruct (Z.even m); lia.
Qed.

Lemma shr_m_spec (m n : Z) (r s : bool) :
  0 <= m -> 0 < n ->
  shr_m (Nat.iter (Z.to_nat n) shr_1 {| shr_m := m; shr_r := r; shr_s := s |}) = m / 2 ^ n.
Proof.
  intros Hm Hn. destruct (Z.to_nat n) as [|k] eqn:Hk; [lia|].
  destruct (shr_iter_spec k m r s Hm) as [H _]. rewrite H. f_equal. f_equal. lia.
Qed.

(** Rounding a positive value below [K] never gives more than [K], for an
    integer [K] below [2^53]: [K] is on every grid the value is rounded to. *)
Lemma binary_round_aux_upper (M : positive) (E K : Z) :
  E <= 0 -> 0 < K < 2 ^ 53 -> Zpos M < K * 2 ^ (- E) ->
  within (binary_round_aux prec emax false (Zpos M) E loc_Exact) K.
Proof.
  intros HE HK HM.
  assert (Hpow : forall e, e <= 0 -> K * 2 ^ (- e) < 2 ^ (53 - e)).
  { intros e He. replace (53 - e) with (53 + - e) by lia.
    rewrite Z.pow_add_r by lia. pose proof (pow2_pos (- e)). nia. }
  unfold binary_round_aux, shr_fexp. simpl Zdigits2. simpl shr_record_of_loc.
  set (d := Zpos (digits2_pos M)).
  assert (Hd : d <= 53 - E).
  { apply digits2_le; [lia|]. specialize (Hpow E HE). lia. }
  rewrite fexp_eq. set (e1 := Z.max (d + E - 53) (-1074)).
  (* the first shift and the rounding *)
  assert (Hstep : exists m2 e1', E <= e1' <= 0 /\ 0 <= m2 <= K * 2 ^ (- e1') /\
    (let '(mrs', e') := shr {| shr_m := Zpos M; shr_r := false; shr_s := false |} E (e1 - E) in
     (round_nearest_even (shr_m mrs') (loc_of_shr_record mrs'), e')) = (m2, e1')).
  { destruct (Z.le_gt_cases (e1 - E) 0) as [Hn|Hn].
    - rewrite shr_nonpos by assumption. exists (Zpos M), E. simpl. repeat split; lia.
    - rewrite shr_pos by lia.
      set (mrs := Nat.iter _ _ _).
      assert (Hm1 : shr_m mrs = Zpos M / 2 ^ (e1 - E)) by (apply shr_m_spec; lia).
      pose proof (round_nearest_even_bounds (shr_m mrs) (loc_of_shr_record mrs)) as Hr.
      exists (round_nearest_even (shr_m mrs) (loc_of_shr_record mrs)), e1.
      replace (E + (e1 - E)) with e1 by lia.
      assert (He1 : e1 <= 0) by lia.
      pose proof (pow2_pos (e1 - E) ltac:(lia)) as Hp.
      assert (0 <= Zpos M / 2 ^ (e1 - E)) by (apply Z.div_pos; lia).
      assert (Zpos M / 2 ^ (e1 - E) < K * 2 ^ (- e1)).
      { apply Z.div_lt_upper_bound; [assumption|].
        rewrite (Z.mul_comm (2 ^ (e1 - E))), <- Z.mul_assoc, pow2_shift by lia. assumption. }
      repeat split; lia. }
  destruct Hstep as (m2 & e1' & He1' & Hm2 & Hstep).
  destruct (shr _ E (e1 - E)) as [mrs' e'].
  injection Hstep as -> ->.
  (* the second shift *)
  rewrite fexp_eq.
  destruct m2 as [|p2|p2]; try lia.
  - simpl Zdigits2. destruct (Z.le_gt_cases (Z.max (0 + e1' - 53) (-1074) - e1') 0) as [Hn|Hn].
    + rewrite shr_nonpos by assumption. exact I.
    + rewrite shr_pos by lia.
      set (mrs := Nat.iter _ _ _).
      assert (Hm : shr_m mrs = 0 / 2 ^ (Z.max (0 + e1' - 53) (-1074) - e1'))
        by (apply shr_m_spec; lia).
      rewrite Z.div_0_l in Hm by (pose proof (pow2_pos (Z.max (0 + e1' - 53) (-1074) - e1')); lia).
      rewrite Hm. exact I.
  - simpl Zdigits2. set (d2 := Zpos (digits2_pos p2)).
    assert (Hd2 : d2 <= 53 - e1').
    { apply digits2_le; [lia|]. specialize (Hpow e1' ltac:(lia)). lia. }
    set (e3 := Z.max (d2 + e1' - 53) (-1074)).
    change (emax - prec) with 971.
    destruct (Z.le_gt_cases (e3 - e1') 0) as [Hn|Hn].
    + rewrite shr_nonpos by assumption. simpl shr_m.
      destruct (Z.leb_spec e1' 971); [|lia]. simpl. split; lia.
    + rewrite shr_pos by lia.
      set (mrs := Nat.iter _ _ _).
      assert (Hm : shr_m mrs = Zpos p2 / 2 ^ (e3 - e1')) by (apply shr_m_spec; lia).
      replace (e1' + (e3 - e1')) with e3 by lia.
      pose proof (pow2_pos (e3 - e1') ltac:(lia)) as Hp.
      assert (0 <= Zpos p2 / 2 ^ (e3 - e1')) by (apply Z.div_pos; lia).
      assert (Zpos p2 / 2 ^ (e3 - e1') <= K * 2 ^ (- e3)).
      { apply Z.div_le_upper_bound; [assumption|].
        rewrite <- (pow2_shift e1' e3) in Hm2 by lia. lia. }
      rewrite Hm. destruct (Zpos p2 / 2 ^ (e3 - e1')) as [|m3|m3]; try lia; [exact I|].
      destruct (Z.leb_spec e3 971); [|lia]. simpl. split; lia.
Qed.

End Products.

(** ** Numbers between 0 and 1, and their products with an integer *)

Section UnitInterval.

Lemma Prim2SF_zero : Prim2SF 0 = S754_zero false.
Proof. reflexivity. Qed.

Lemma Prim2SF_one : Prim2SF 1 = S754_finite false 4503599627370496 (-52).
Proof. reflexivity. Qed.

(** [1 * a] is [a]. *)
Lemma mul_1_l (a : float) : (1 * a)%float = a.
Proof.
  apply Prim2SF_inj. rewrite mul_spec, Prim2SF_one.
  pose proof (Prim2SF_valid a) as Hv.
  destruct (Prim2SF a) as [s|s| |s m e]; [reflexivity | reflexivity | reflexivity |].
  unfold SF64mul, SFmul. simpl xorb.
  apply binary_round_aux_exact; [exact Hv | lia |].
  replace (e - (-52 + e)) with 52 by lia. lia.
Qed.

(** A Number in [[0, 1]] is a zero, or 1, or a positive finite number with
    exponent at most [-53] (and a mantissa of at most 53 digits). *)
Lemma unit_interval_cases (x : float) :
  (0 <=? x)%float = true -> (x <=? 1)%float = true ->
  (exists s, Prim2SF x = S754_zero s) \/ x = 1%float \/
  (exists m e, Prim2SF x = S754_finite false m e /\ e <= -53 /\ Zpos m < 2 ^ 53).
Proof.
  rewrite !leb_spec, Prim2SF_zero. intros H0 H1.
  pose proof (Prim2SF_valid x) as Hv. pose proof (Prim2SF_inj x 1) as Hinj.
  rewrite Prim2SF_one in *.
  assert (Hc : Zpos 4503599627370496 = 2 ^ 52) by reflexivity.
  set (c := 4503599627370496%positive) in *.
  destruct (Prim2SF x) as [s|s| |s m e]; try discriminate.
  - left. now exists s.
  - destruct s; discriminate.
  - destruct s; [discriminate|]. right.
    apply bounded_inv in Hv. destruct Hv as [Hcan _].
    pose proof (digits2_bounds m) as [Hlo Hhi].
    unfold SFleb, SFcompare in H1.
    destruct (Z.compare_spec e (-52)) as [He|He|He]; try discriminate.
    + left. apply Hinj. subst e.
      assert (Zpos (digits2_pos m) = 53) as Hd by lia. rewrite Hd in *.
      rewrite Pos.compare_cont_spec in H1.
      destruct (Pos.compare_spec m c) as [Hm|Hm|Hm]; try discriminate.
      * now subst m.
      * change (53 - 1) with 52 in Hlo. lia.
    + right. exists m, e. repeat split; try lia.
      assert (Zpos (digits2_pos m) <= 53) by lia.
      assert (2 ^ Zpos (digits2_pos m) <= 2 ^ 53) by (apply Z.pow_le_mono_r; lia). lia.
Qed.

(** The product of a Number in [[0, 1]] and an integer constant [K]
    (held by [Kf]) is in [[0, K]]. *)
Lemma mul_unit_within (x Kf : float) (K : Z) :
  0 < K < 2 ^ 53 -> holds (Prim2SF Kf) false K ->
  (0 <=? x)%float = true -> (x <=? 1)%float = true ->
  within (Prim2SF (x * Kf)) K.
Proof.
  intros HK (mK & eK & HKf & _ & HeK & HmK) H0 H1.
  destruct (unit_interval_cases x H0 H1) as [[s Hx]|[->|(m & e & Hx & He & Hm)]].
  - rewrite mul_spec, Hx, HKf. exact I.
  - rewrite mul_1_l, HKf. simpl. split; lia.
  - rewrite mul_spec, Hx, HKf. unfold SF64mul, SFmul. simpl xorb.
    apply binary_round_aux_upper; try lia.
    rewrite Pos2Z.inj_mul, HmK.
    replace (- (e + eK)) with (- e + - eK) by lia. rewrite Z.pow_add_r by lia.
    assert (2 ^ 53 <= 2 ^ (- e)) by (apply Z.pow_le_mono_r; lia).
    pose proof (pow2_pos (- eK) ltac:(lia)). nia.
Qed.

(** Rounding a value of [[0, K]] gives an integer of [0..K], or [-0]. *)
Lemma Math_round_within (y : float) (K : Z) :
  0 <= K -> within (Prim2SF y) K ->
  Math_round y = neg_zero \/ exists k, 0 <= k <= K /\ Math_round y = Z2f k.
Proof.
  intros HK Hy. unfold Math_round. pose proof (Prim2SF_valid y) as Hv.
  pose proof (SF2Prim_Prim2SF y) as Hback.
  destruct (Prim2SF y) as [s|s| |s m e] eqn:Hy'; try contradiction.
  - destruct s; [left | right; exists 0; split; [lia|]]; now rewrite <- Hback.
  - destruct s; [contradiction|]. destruct Hy as [He Hm]. right.
    destruct (Z.leb_spec 0 e).
    + replace e with 0 in * by lia. simpl in Hm. exists (Zpos m). split; [lia|].
      apply holds_Z2f. rewrite Hy'. exists m, 0. repeat split; try assumption; lia.
    + pose proof (pow2_pos (- e) ltac:(lia)) as Hp.
      set (k := (2 * signed false m + 2 ^ (- e)) / 2 ^ (1 - e)).
      assert (Hk : 0 <= k <= K).
      { unfold k, signed. replace (1 - e) with (1 + - e) by lia.
        rewrite Z.pow_add_r by lia. change (2 ^ 1) with 2. split.
        - apply Z.div_pos; lia.
        - apply Z.lt_succ_r, Z.div_lt_upper_bound; lia. }
      exists k. split; [assumption|]. unfold of_int.
      destruct (Z.eqb_spec k 0) as [->|]; reflexivity.
Qed.

End UnitInterval.

(** ** Hexadecimal digits *)

Section Hex.

Lemma to_radix_cons (fuel : nat) (q d : Z) (acc : string) :
  0 < q -> 0 <= d < 16 ->
  to_radix (S fuel) 16 (16 * q + d) acc = to_radix fuel 16 q (String (digit_char d) acc).
Proof.
  intros Hq Hd. cbn [to_radix].
  replace ((16 * q + d) mod 16) with d by (apply Z.mod_unique with q; lia).
  replace ((16 * q + d) / 16) with q by (apply Z.div_unique with d; lia).
  destruct (Z.eqb_spec q 0); [lia | reflexivity].
Qed.

Lemma to_radix_last (fuel : nat) (d : Z) (acc : string) :
  0 <= d < 16 -> to_radix (S fuel) 16 d acc = String (digit_char d) acc.
Proof.
  intros Hd. cbn [to_radix]. rewrite Z.mod_small, Z.div_small by lia. reflexivity.
Qed.

(** The digits of [2^24 + k1 * 2^16 + k2 * 2^8 + k3] for three bytes:
    a 1, then two digits per byte. *)
Lemma digits_of_rgb (k1 k2 k3 : Z) :
  0 <= k1 <= 255 -> 0 <= k2 <= 255 -> 0 <= k3 <= 255 ->
  digits_of 16 (16777216 + k1 * 65536 + k2 * 256 + k3) =
  String "1"
    (String (digit_char (k1 / 16)) (String (digit_char (k1 mod 16))
    (String (digit_char (k2 / 16)) (String (digit_char (k2 mod 16))
    (String (digit_char (k3 / 16)) (String (digit_char (k3 mod 16)) EmptyString)))))).
Proof.
  intros H1 H2 H3. unfold digits_of.
  set (N := 16777216 + k1 * 65536 + k2 * 256 + k3).
  assert (Hlog : Z.log2 N = 24).
  { apply Z.log2_unique; [lia|]. change (2 ^ 24) with 16777216.
    change (2 ^ Z.succ 24) with 33554432. unfold N. lia. }
  rewrite Hlog. change (S (Z.to_nat 24)) with 25%nat.
  pose proof (Z.div_mod k1 16 ltac:(lia)) as E1.
  pose proof (Z.div_mod k2 16 ltac:(lia)) as E2.
  pose proof (Z.div_mod k3 16 ltac:(lia)) as E3.
  pose proof (Z.mod_pos_bound k1 16 ltac:(lia)) as B1.
  pose proof (Z.mod_pos_bound k2 16 ltac:(lia)) as B2.
  pose proof (Z.mod_pos_bound k3 16 ltac:(lia)) as B3.
  assert (0 <= k1 / 16 < 16) by (split; [apply Z.div_pos | apply Z.div_lt_upper_bound]; lia).
  assert (0 <= k2 / 16 < 16) by (split; [apply Z.div_pos | apply Z.div_lt_upper_bound]; lia).
  assert (0 <= k3 / 16 < 16) by (split; [apply Z.div_pos | apply Z.div_lt_upper_bound]; lia).
  set (h1 := k1 / 16) in *. set (l1 := k1 mod 16) in *.
  set (h2 := k2 / 16) in *. set (l2 := k2 mod 16) in *.
  set (h3 := k3 / 16) in *. set (l3 := k3 mod 16) in *.
  replace N with (16 * (16 * (16 * (16 * (16 * (16 * 1 + h1) + l1) + h2) + l2) + h3) + l3)
    by (unfold N; lia).
  rewrite !to_radix_cons by lia. now rewrite to_radix_last by lia.
Qed.

(** An integral Number prints, in radix 16, as the digits of its value. *)
Lemma Number_toString16_Z2f (N : Z) :
  0 < N < 2 ^ 53 -> Number_toString16 (Z2f N) = digits_of 16 N.
Proof.
  intros HN. destruct N as [|N|N]; try lia.
  unfold Number_toString16. rewrite Prim2SF_Z2f by lia.
  destruct (Z2SF_holds N ltac:(lia)) as (m & e & -> & _ & He & Hm).
  simpl sign_string. destruct (Z.leb_spec 0 e).
  - replace e with 0 in * by lia. simpl in Hm. simpl. f_equal. lia.
  - pose proof (pow2_pos (- e) ltac:(lia)).
    rewrite Hm, Z.mod_mul, Z.div_mul by lia. simpl. apply append_nil_r.
Qed.

Lemma upper_digit_char (d : Z) : 0 <= d < 16 -> upper_char (digit_char d) = hex_digit d.
Proof.
  intros Hd.
  assert (Hcases : d = 0 \/ d = 1 \/ d = 2 \/ d = 3 \/ d = 4 \/ d = 5 \/ d = 6 \/ d = 7 \/
                   d = 8 \/ d = 9 \/ d = 10 \/ d = 11 \/ d = 12 \/ d = 13 \/ d = 14 \/ d = 15)
    by lia.
  repeat (destruct Hcases as [->|Hcases]; [reflexivity|]). now subst d.
Qed.

End Hex.

(** ** Order of Numbers *)

Section Order.

Lemma SFcompare_antisym (x y : spec_float) :
  SFcompare y x = option_map CompOpp (SFcompare x y).
Proof.
  destruct x as [s1|s1| |s1 m1 e1], y as [s2|s2| |s2 m2 e2]; simpl;
    try reflexivity; try (destruct s1; reflexivity); try (destruct s2; reflexivity);
    try (destruct s1, s2; reflexivity).
  destruct s1, s2; try reflexivity; simpl; rewrite (Z.compare_antisym e1 e2);
    destruct (e1 ?= e2); simpl; try reflexivity;
    rewrite ?(Pos.compare_cont_antisym m1 m2 Eq); reflexivity.
Qed.

Lemma SFcompare_None (x y : spec_float) :
  SFcompare x y = None -> x = S754_nan \/ y = S754_nan.
Proof.
  destruct x as [s1|s1| |s1 m1 e1], y as [s2|s2| |s2 m2 e2]; simpl; auto; discriminate.
Qed.

Lemma is_nan_spec (x : float) :
  is_nan x = match Prim2SF x with S754_nan => true | _ => false end.
Proof.
  unfold is_nan. rewrite FloatAxioms.eqb_spec.
  destruct (Prim2SF x) as [s|s| |s m e] eqn:Hx; try reflexivity.
  - destruct s; reflexivity.
  - assert (H : SFeqb (S754_finite s m e) (S754_finite s m e) = true)
      by (apply SFeqb_shape; simpl; auto).
    now rewrite H.
Qed.

Lemma ltb_leb (x y : float) : (x <? y)%float = true -> (x <=? y)%float = true.
Proof.
  rewrite ltb_spec, leb_spec. unfold SFltb, SFleb.
  destruct (SFcompare (Prim2SF x) (Prim2SF y)) as [[| |]|]; congruence.
Qed.

Lemma ltb_false_leb (x y : float) :
  is_nan x = false -> is_nan y = false ->
  (x <? y)%float = false -> (y <=? x)%float = true.
Proof.
  rewrite !is_nan_spec, ltb_spec, leb_spec. unfold SFltb, SFleb.
  rewrite (SFcompare_antisym (Prim2SF x) (Prim2SF y)). intros Hx Hy.
  destruct (SFcompare (Prim2SF x) (Prim2SF y)) as [[| |]|] eqn:Hc; simpl; try congruence.
  apply SFcompare_None in Hc. destruct Hc as [Hc|Hc]; rewrite Hc in *; discriminate.
Qed.

Lemma ltb_asym (x y : float) : (x <? y)%float = true -> (y <? x)%float = false.
Proof.
  rewrite !ltb_spec. unfold SFltb.
  rewrite (SFcompare_antisym (Prim2SF x) (Prim2SF y)).
  destruct (SFcompare (Prim2SF x) (Prim2SF y)) as [[| |]|]; simpl; congruence.
Qed.

(** The clamp [Math.min(Math.max(o, 0), 1)] of a Number that is not NaN:
    it is in [[0, 1]]; it is 0 below 0 and 1 above 1. *)
Lemma clamp_spec (o : float) :
  is_nan o = false ->
  let alpha := Math_min (Math_max o 0) 1 in
  (0 <=? alpha)%float = true /\ (alpha <=? 1)%float = true /\
  ((o <? 0)%float = true -> alpha = 0%float) /\
  ((1 <? o)%float = true -> alpha = 1%float).
Proof.
  intros Ho.
  assert (Hmax : is_nan (Math_max o 0) = false /\ (0 <=? Math_max o 0)%float = true /\
                 ((o <? 0)%float = true -> Math_max o 0 = 0%float) /\
                 ((o <? 0)%float = false -> Math_max o 0 = o \/ Math_max o 0 = 0%float)).
  { unfold Math_max. rewrite Ho. change (is_nan 0) with false. cbn [orb].
    destruct (o <? 0)%float eqn:Hlt.
    - repeat split; auto.
    - destruct (0 <? o)%float eqn:Hgt.
      + repeat split; auto; try discriminate. now apply ltb_leb.
      + destruct (get_sign o); repeat split; auto; try discriminate.
        now apply ltb_false_leb. }
  destruct Hmax as (Hnan & H0 & Hneg & Hpos).
  set (w := Math_max o 0) in *.
  assert (Hmin : (0 <=? Math_min w 1)%float = true /\ (Math_min w 1 <=? 1)%float = true /\
                 ((w <? 1)%float = true -> Math_min w 1 = w) /\
                 ((1 <? w)%float = true -> Math_min w 1 = 1%float)).
  { unfold Math_min. rewrite Hnan. change (is_nan 1) with false. cbn [orb].
    destruct (w <? 1)%float eqn:Hlt.
    - repeat split; auto; try discriminate.
      + now apply ltb_leb.
      + intros H. apply ltb_asym in H. congruence.
    - destruct (1 <? w)%float eqn:Hgt.
      + repeat split; auto; discriminate.
      + destruct (get_sign w); repeat split; auto; try discriminate.
        now apply ltb_false_leb. }
  destruct Hmin as (Hlo & Hhi & Hsame & Hone).
  cbv zeta. repeat split; try assumption.
  - intros Hlt. rewrite (Hneg Hlt) in *. reflexivity.
  - intros Hgt. apply Hone.
    assert (Hlt : (o <? 0)%float = false).
    { destruct (o <? 0)%float eqn:Hlt; [|reflexivity].
      revert Hgt Hlt. rewrite !ltb_spec, Prim2SF_one, Prim2SF_zero. unfold SFltb.
      destruct (Prim2SF o) as [s|s| |s m e]; simpl; try discriminate;
        destruct s; simpl; discriminate. }
    destruct (Hpos Hlt) as [Hw|Hw]; fold w in Hw; rewrite Hw; [assumption|].
    exfalso. unfold w, Math_max in Hw. rewrite Ho, Hlt in Hw.
    change (is_nan 0) with false in Hw. cbn [orb] in Hw.
    assert (Hgt0 : (0 <? o)%float = true).
    { revert Hgt. rewrite !ltb_spec, Prim2SF_one, Prim2SF_zero. unfold SFltb.
      destruct (Prim2SF o) as [s|s| |s m e]; simpl; try discriminate;
        destruct s; simpl; try discriminate; reflexivity. }
    rewrite Hgt0 in Hw. rewrite Hw in Hgt. discriminate.
Qed.

End Order.

(** ** Products strictly below the factor: a draw times 36 *)

Section Draws.

Lemma within_below (x : spec_float) (K K' : Z) : within x K -> K < K' -> below x K'.
Proof.
  destruct x as [s|s| |[|] m e]; simpl; auto. intros [He Hm] HK. split; [assumption|].
  pose proof (pow2_pos (- e) ltac:(lia)). nia.
Qed.

Lemma Prim2SF_36 : Prim2SF 36 = S754_finite false 5066549580791808 (-47).
Proof. reflexivity. Qed.

(** A positive Number below 1 times 36 rounds to a Number below 36: when the
    product is 32 or more, it is rounded to a multiple of [2^-47] and lies
    more than half a step under 36. *)
Lemma mul_36_below (m : positive) (e : Z) :
  e <= -53 -> Zpos m < 2 ^ 53 ->
  below (binary_round_aux prec emax false (Zpos (m * 5066549580791808)) (e + -47) loc_Exact) 36.
Proof.
  intros He Hm.
  assert (Hc : Zpos 5066549580791808 = 9 * 2 ^ 49) by reflexivity.
  set (c := 5066549580791808%positive) in *.
  assert (HM : Zpos (m * c) = 9 * Zpos m * 2 ^ 49) by (rewrite Pos2Z.inj_mul, Hc; ring).
  set (M := (m * c)%positive) in *.
  assert (HP : 0 < 2 ^ 49) by (apply pow2_pos; lia).
  set (P := 2 ^ 49) in *.
  destruct (Z.lt_ge_cases (Zpos M) (32 * 2 ^ (- (e + -47)))) as [Hsmall|Hbig].
  - apply within_below with 32; [|lia]. apply binary_round_aux_upper; lia.
  - assert (He53 : e = -53).
    { destruct (Z.eq_dec e (-53)); [assumption|]. exfalso.
      assert (H54 : 2 ^ 54 <= 2 ^ (- e)) by (apply Z.pow_le_mono_r; lia).
      replace (- (e + -47)) with (49 + (-2 + - e)) in Hbig by lia.
      rewrite Z.pow_add_r in Hbig by lia. fold P in Hbig.
      assert (H52 : 2 ^ 52 <= 2 ^ (-2 + - e)) by (apply Z.pow_le_mono_r; lia).
      assert (32 * 2 ^ (-2 + - e) <= 9 * Zpos m).
      { apply (Z.mul_le_mono_pos_r _ _ P); lia. }
      change (2 ^ 52) with 4503599627370496 in H52.
      change (2 ^ 53) with 9007199254740992 in Hm. lia. }
    subst e. change (- (-53 + -47)) with 100 in Hbig.
    change (2 ^ 53) with 9007199254740992 in Hm.
    assert (Ht : 2 ^ 56 <= 9 * Zpos m).
    { apply (Z.mul_le_mono_pos_r _ _ P); [lia|]. unfold P at 1.
      rewrite <- Z.pow_add_r by lia. change (56 + 49) with 105.
      change (32 * 2 ^ 100) with (2 ^ 105) in Hbig. lia. }
    change (2 ^ 56) with 72057594037927936 in Ht.
    set (t := 9 * Zpos m) in *.
    assert (Hd : Zpos (digits2_pos M) = 106).
    { apply digits2_unique. rewrite HM. fold t. split.
      - change (106 - 1) with (56 + 49). rewrite Z.pow_add_r by lia. fold P.
        change (2 ^ 56) with 72057594037927936. nia.
      - change 106 with (57 + 49). rewrite Z.pow_add_r by lia. fold P.
        change (2 ^ 57) with 144115188075855872. nia. }
    unfold binary_round_aux, shr_fexp. simpl Zdigits2. rewrite Hd.
    change (fexp prec emax (106 + (-53 + -47))) with (-47).
    change (-47 - (-53 + -47)) with 53. cbn [shr_record_of_loc].
    rewrite shr_pos by lia. change (Z.to_nat 53) with 53%nat.
    destruct (shr_iter_spec 52 (Zpos M) false false ltac:(lia)) as [Hm1 Hr].
    change (Z.of_nat 53) with 53 in Hm1. change (Z.of_nat 52) with 52 in Hr.
    assert (Hdiv53 : Zpos M / 2 ^ 53 = t / 16).
    { rewrite HM. fold t. change (2 ^ 53) with (16 * 2 ^ 49). fold P.
      apply Z.div_mul_cancel_r; lia. }
    assert (Hdiv52 : Zpos M / 2 ^ 52 = t / 8).
    { rewrite HM. fold t. change (2 ^ 52) with (8 * 2 ^ 49). fold P.
      apply Z.div_mul_cancel_r; lia. }
    rewrite Hdiv53 in Hm1. rewrite Hdiv52 in Hr.
    destruct (Nat.iter 53 shr_1 _) as [m1 r s]. cbn [shr_m shr_r] in Hm1, Hr.
    change (-53 + -47 + 53) with (-47).
    assert (Hm2 : 4503599627370496 <=
                  round_nearest_even (shr_m {| shr_m := m1; shr_r := r; shr_s := s |})
                    (loc_of_shr_record {| shr_m := m1; shr_r := r; shr_s := s |})
                  < 5066549580791808).
    { pose proof (Z.div2_odd (t / 8)) as Hodd. rewrite Z.div2_div in Hodd.
      rewrite Z.div_div in Hodd by lia. change (8 * 2) with 16 in Hodd.
      subst m1. rewrite <- Hr in Hodd. unfold t in *.
      pose proof (round_nearest_even_bounds (9 * Zpos m / 16)
                    (loc_of_shr_record {| shr_m := 9 * Zpos m / 16; shr_r := r; shr_s := s |}))
        as Hb.
      cbn [shr_m] in *.
      pose proof (Z.div_mod (9 * Zpos m) 16 ltac:(lia)) as E16.
      pose proof (Z.mod_pos_bound (9 * Zpos m) 16 ltac:(lia)) as B16.
      pose proof (Z.div_mod (9 * Zpos m) 8 ltac:(lia)) as E8.
      pose proof (Z.mod_pos_bound (9 * Zpos m) 8 ltac:(lia)) as B8.
      destruct r.
      - simpl Z.b2z in Hodd. lia.
      - assert (Hexact : round_nearest_even (9 * Zpos m / 16)
                  (loc_of_shr_record {| shr_m := 9 * Zpos m / 16; shr_r := false; shr_s := s |})
                = 9 * Zpos m / 16) by (destruct s; reflexivity).
        rewrite Hexact. lia. }
    destruct (round_nearest_even _ _) as [|p2|p2]; try lia.
    simpl Zdigits2.
    assert (Hd2 : Zpos (digits2_pos p2) = 53).
    { apply digits2_unique. change (2 ^ (53 - 1)) with 4503599627370496.
      change (2 ^ 53) with 9007199254740992. lia. }
    rewrite Hd2. change (fexp prec emax (53 + -47) - -47) with 0.
    rewrite shr_nonpos by lia. cbn [shr_m]. simpl. split; [lia|].
    change (36 * 2 ^ 47) with 5066549580791808. lia.
Qed.

(** Flooring a value of [[0, K)] gives an integer of [0..K-1], or [-0]. *)
Lemma Math_floor_below (y : float) (K : Z) :
  0 < K -> below (Prim2SF y) K ->
  Math_floor y = neg_zero \/ exists k, 0 <= k < K /\ Math_floor y = Z2f k.
Proof.
  intros HK Hy. unfold Math_floor. pose proof (Prim2SF_valid y) as Hv.
  pose proof (SF2Prim_Prim2SF y) as Hback.
  destruct (Prim2SF y) as [s|s| |s m e] eqn:Hy'; try contradiction.
  - destruct s; [left | right; exists 0; split; [lia|]]; now rewrite <- Hback.
  - destruct s; [contradiction|]. destruct Hy as [He Hm]. right.
    destruct (Z.leb_spec 0 e).
    + replace e with 0 in * by lia. simpl in Hm. exists (Zpos m). split; [lia|].
      apply holds_Z2f. rewrite Hy'. exists m, 0. repeat split; try assumption; lia.
    + pose proof (pow2_pos (- e) ltac:(lia)) as Hp.
      set (k := signed false m / 2 ^ (- e)).
      assert (Hk : 0 <= k < K).
      { unfold k, signed. split.
        - apply Z.div_pos; lia.
        - apply Z.div_lt_upper_bound; lia. }
      exists k. split; [assumption|]. unfold of_int.
      destruct (Z.eqb_spec k 0) as [->|]; reflexivity.
Qed.

Lemma get_in_range (s : string) (n : nat) :
  (n < String.length s)%nat ->
  exists c, String.get n s = Some c /\ In c (list_ascii_of_string s).
Proof.
  revert n. induction s as [|c s IH]; intros n Hn; simpl in Hn; [lia|].
  destruct n as [|n]; simpl.
  - exists c. auto.
  - destruct (IH n ltac:(lia)) as (c' & Hget & Hin). exists c'. auto.
Qed.

(** A draw of [[0, 1)] selects a character of [chars]. *)
Lemma draw_selects (x : float) :
  (0 <=? x)%float = true -> (x <? 1)%float = true ->
  exists c, index_number chars (Math_floor (x * Z2f (Z.of_nat (String.length chars)))) = Some c /\
            In c (list_ascii_of_string chars).
Proof.
  intros H0 H1. change (Z2f (Z.of_nat (String.length chars))) with 36%float.
  assert (Hb : below (Prim2SF (x * 36)) 36).
  { destruct (unit_interval_cases x H0 (ltb_leb _ _ H1)) as [[s Hx]|[->|(m & e & Hx & He & Hm)]].
    - rewrite mul_spec, Hx, Prim2SF_36. exact I.
    - discriminate.
    - rewrite mul_spec, Hx, Prim2SF_36. unfold SF64mul, SFmul. cbn [xorb].
      now apply mul_36_below. }
  destruct (Math_floor_below _ 36 ltac:(lia) Hb) as [->|(k & Hk & ->)].
  - exists "A"%char. split; [reflexivity|]. simpl. auto.
  - unfold index_number. rewrite to_integer_Z2f by lia.
    destruct (Z.leb_spec 0 k); [|lia]. apply get_in_range.
    change (String.length chars) with 36%nat. lia.
Qed.

End Draws.

(** * Properties *)

(** ** The compactor: removeEmptyKeys *)

Section Compactor.

(** One round of the [for (const key in input)] loop. *)
Let step (result : list (string * value)) (kv : string * value) :=
  let '(key, v) := kv in
  let cleanedValue := removeEmptyKeys v in
  if kept cleanedValue then set_property result key cleanedValue else result.

Lemma removeEmptyKeys_object props :
  removeEmptyKeys (VObject props) = VObject (fold_left step props []).
Proof. reflexivity. Qed.

(** Assigning a key other than ["__proto__"] that the object does not have
    yet adds the property after the others. *)
Lemma set_property_fresh result key v :
  key <> "__proto__" -> ~ In key (map fst result) ->
  set_property result key v = (result ++ [(key, v)])%list.
Proof.
  intros Hkey. unfold set_property.
  apply String.eqb_neq in Hkey. rewrite Hkey. clear Hkey.
  induction result as [|[k w] rest IH]; simpl; intros Hfresh; [reflexivity|].
  destruct (String.eqb k key) eqn:E.
  - apply String.eqb_eq in E. tauto.
  - rewrite IH by tauto. reflexivity.
Qed.

(** Assigning the key ["__proto__"] stores nothing. *)
Lemma set_property_proto result v : set_property result "__proto__" v = result.
Proof. reflexivity. Qed.

(** With distinct keys the loop keeps, in order, the cleaned properties
    that pass the test and whose key is not ["__proto__"]. *)
Lemma loop_filters props : forall result,
  NoDup (map fst result ++ map fst props) ->
  fold_left step props result = (result ++ filter copied (cleaned props))%list.
Proof.
  induction props as [|[key v] rest IH]; intros result Hnd; simpl.
  - now rewrite app_nil_r.
  - pose proof (NoDup_remove _ _ _ Hnd) as [Hnd' Hfresh].
    unfold copied. cbn [fst snd].
    destruct (kept (removeEmptyKeys v)) eqn:Hk; [|rewrite andb_false_r; apply IH, Hnd'].
    rewrite andb_true_r.
    destruct (String.eqb_spec key "__proto__") as [->|Hkey]; cbn [negb].
    + rewrite set_property_proto. apply IH, Hnd'.
    + rewrite set_property_fresh;
        [|assumption | intro; apply Hfresh, in_or_app; now left].
      rewrite IH.
      * now rewrite <- app_assoc.
      * rewrite map_app, <- app_assoc. exact Hnd.
Qed.

(** What [removeEmptyKeys] gives of an object with distinct keys. *)
Lemma removeEmptyKeys_own_properties props :
  NoDup (map fst props) ->
  removeEmptyKeys (VObject props) = VObject (filter copied (cleaned props)).
Proof.
  intros Hnd. rewrite removeEmptyKeys_object. now rewrite (loop_filters props []).
Qed.

End Compactor.

(** C6 (the code departs from it): an own property with the key
    ["__proto__"] is dropped whatever its value is, also when the value is a
    primitive: of [{"__proto__": 0, "b": 2}], as [JSON.parse] builds it,
    [removeEmptyKeys] returns [{"b": 2}], although [0] is a primitive and
    passes the test. No result has an own property of that key. Apart from
    that key the function does as specified: it cleans arrays element by
    element and objects key by key; of an object (its keys are distinct) it
    keeps, in order, the properties whose cleaned value passes the test, and
    a cleaned value fails the test exactly when it is [undefined], an empty
    array or an object without keys; a property whose value is [null], a
    boolean, a number or a string is never dropped; and the example of the
    specification holds. *)
Theorem removeEmptyKeys_drops_proto_key :
  removeEmptyKeys (VObject [("__proto__", VNumber 0); ("b", VNumber 2)]) =
  VObject [("b", VNumber 2)] /\
  primitive (VNumber 0) /\ kept (removeEmptyKeys (VNumber 0)) = true /\
  (forall props out, NoDup (map fst props) ->
      removeEmptyKeys (VObject props) = VObject out -> ~ In "__proto__" (map fst out)) /\
  (forall items,
      removeEmptyKeys (VArray items) = VArray (map removeEmptyKeys items)) /\
  (forall props, NoDup (map fst props) ->
      removeEmptyKeys (VObject props) = VObject (filter copied (cleaned props))) /\
  (forall v, kept v = false <-> v = VUndefined \/ v = VArray [] \/ v = VObject []) /\
  (forall props key v, NoDup (map fst props) -> In (key, v) props -> primitive v ->
      key <> "__proto__" ->
      exists out, removeEmptyKeys (VObject props) = VObject out /\ In (key, v) out) /\
  removeEmptyKeys
    (VObject [("a", VArray []); ("b", VObject []); ("c", VNumber 0);
              ("d", VBool false); ("e", VObject [("f", VNumber 1)])]) =
  VObject [("c", VNumber 0); ("d", VBool false); ("e", VObject [("f", VNumber 1)])].
Proof.
  split; [reflexivity|]. split; [exact I|]. split; [reflexivity|].
  split; [|split; [reflexivity|]; split; [exact removeEmptyKeys_own_properties|];
           split; [|split; [|reflexivity]]].
  - intros props out Hnd. rewrite removeEmptyKeys_own_properties by assumption.
    intros [= <-] Hin. apply in_map_iff in Hin as ([k w] & Hk & Hin).
    apply filter_In in Hin as [_ Hcopied]. cbn [fst] in Hk. subst k.
    unfold copied in Hcopied. cbn [fst] in Hcopied.
    rewrite String.eqb_refl in Hcopied. discriminate.
  - intros v; split.
    + destruct v as [| | | | |[|]|[|]]; simpl; intros H; try discriminate; auto.
    + intros [->|[->| ->]]; reflexivity.
  - intros props key v Hnd Hin Hprim Hkey. eexists.
    split; [apply removeEmptyKeys_own_properties, Hnd|].
    apply filter_In. split.
    + unfold cleaned. apply in_map_iff. exists (key, v). split; [|assumption].
      destruct v; simpl in *; try contradiction; reflexivity.
    + unfold copied. cbn [fst snd]. apply String.eqb_neq in Hkey. rewrite Hkey.
      destruct v; simpl in *; try contradiction; reflexivity.
Qed.

(** C9: an array is never shortened: the result is the array of the cleaned
    elements, of the same length, so an element that is (or is cleaned to)
    an empty object or an empty array stays in place; keys are dropped
    inside objects only. *)
Theorem removeEmptyKeys_keeps_array_elements :
  forall items,
    exists out,
      removeEmptyKeys (VArray items) = VArray out /\
      List.length out = List.length items /\
      (forall i, nth_error out i = option_map removeEmptyKeys (nth_error items i)) /\
      (forall i, nth_error items i = Some (VObject []) -> nth_error out i = Some (VObject [])) /\
      (forall i, nth_error items i = Some (VArray []) -> nth_error out i = Some (VArray [])) /\
      removeEmptyKeys (VArray [VObject []; VArray []; VObject [("a", VArray [])]]) =
      VArray [VObject []; VArray []; VObject []] /\
      removeEmptyKeys (VObject [("k", VArray [VObject []; VArray []])]) =
      VObject [("k", VArray [VObject []; VArray []])].
Proof.
  intros items. exists (map removeEmptyKeys items).
  assert (Hnth : forall i, nth_error (map removeEmptyKeys items) i =
                           option_map removeEmptyKeys (nth_error items i)).
  { intros i. apply nth_error_map. }
  repeat split; try reflexivity.
  - apply length_map.
  - exact Hnth.
  - intros i Hi. now rewrite Hnth, Hi.
  - intros i Hi. now rewrite Hnth, Hi.
Qed.

(** An empty object and an empty array among the elements of an array. *)
Lemma removeEmptyKeys_keeps_array_elements_witness :
  exists out,
    removeEmptyKeys (VArray [VObject []; VNumber 0; VArray []]) = VArray out /\
    List.length out = 3%nat /\
    nth_error out 0 = Some (VObject []) /\ nth_error out 2 = Some (VArray []).
Proof.
  destruct (removeEmptyKeys_keeps_array_elements [VObject []; VNumber 0; VArray []])
    as (out & Hout & Hlen & _ & Hobj & Harr & _).
  exists out. split; [exact Hout|]. split; [exact Hlen|]. split.
  - apply (Hobj 0%nat). reflexivity.
  - apply (Harr 2%nat). reflexivity.
Defined.

(** ** Visibility *)

(** C8: [isVisible] returns the [visible] field when it is present, and
    [true] when it is absent. *)
Theorem isVisible_spec :
  forall element : Element.t,
    (forall v, Element.visible element = Some v -> isVisible element = v) /\
    (Element.visible element = None -> isVisible element = true).
Proof.
  intros [[v|]]; unfold isVisible; simpl; split; intros; congruence.
Qed.

Lemma isVisible_spec_witness :
  isVisible {| Element.visible := Some false |} = false /\
  isVisible {| Element.visible := None |} = true.
Proof.
  split.
  - apply (proj1 (isVisible_spec {| Element.visible := Some false |})). reflexivity.
  - apply (proj2 (isVisible_spec {| Element.visible := None |})). reflexivity.
Defined.

(** ** Paints: which tags are handled *)

Lemma includes_In types t : includes types t = true <-> In t types.
Proof.
  unfold includes. rewrite existsb_exists. split.
  - intros [x [Hin Heq]]. apply String.eqb_eq in Heq. now subst.
  - intros Hin. exists t. split; [assumption | apply String.eqb_refl].
Qed.

Lemma handled_types_cases t :
  In t handled_types <->
  String.eqb t "IMAGE" = true \/ String.eqb t "SOLID" = true \/
  includes gradient_types t = true.
Proof.
  rewrite includes_In, !String.eqb_eq. unfold handled_types.
  split.
  - intros [H|[H|H]]; auto.
  - intros [H|[H|H]]; [left | right; left | right; right]; auto.
Qed.

(** C7: on a paint typed as [Paint], [parsePaint] throws exactly when the tag
    is none of [IMAGE], [SOLID], [GRADIENT_LINEAR], [GRADIENT_RADIAL],
    [GRADIENT_ANGULAR] and [GRADIENT_DIAMOND] (the list [handled_types]);
    with one of these six tags it returns a fill, with any other tag it
    throws the error [Unknown paint type]. *)
Theorem parsePaint_throws_iff_unknown_type :
  forall raw : Paint.t,
    well_typed raw ->
    ((exists e, parsePaint raw = Throw e) <-> ~ In (Paint.type raw) handled_types) /\
    (In (Paint.type raw) handled_types -> exists fill, parsePaint raw = Return fill) /\
    (~ In (Paint.type raw) handled_types ->
     parsePaint raw = Throw (Error ("Unknown paint type: " ++ Paint.type raw))).
Proof.
  intros raw [Hsolid Hgrad].
  assert (Hret : In (Paint.type raw) handled_types ->
                 exists fill, parsePaint raw = Return fill).
  { rewrite handled_types_cases. unfold parsePaint. intros Hin.
    destruct (String.eqb (Paint.type raw) "IMAGE") eqn:E1; [eauto|].
    destruct (String.eqb (Paint.type raw) "SOLID") eqn:E2.
    - apply String.eqb_eq in E2. specialize (Hsolid E2).
      destruct (Paint.color raw) as [color|]; [|congruence].
      destruct (_ =? _)%float; eauto.
    - destruct (includes gradient_types (Paint.type raw)) eqn:E3.
      + apply includes_In in E3. specialize (Hgrad E3).
        destruct (Paint.gradientStops raw); [eauto | congruence].
      + destruct Hin as [?|[?|?]]; discriminate. }
  assert (Hthrow : ~ In (Paint.type raw) handled_types ->
                   parsePaint raw = Throw (Error ("Unknown paint type: " ++ Paint.type raw))).
  { rewrite handled_types_cases. unfold parsePaint. intros Hnot.
    destruct (String.eqb (Paint.type raw) "IMAGE"); [tauto|].
    destruct (String.eqb (Paint.type raw) "SOLID"); [tauto|].
    destruct (includes gradient_types (Paint.type raw)); [tauto | reflexivity]. }
  repeat split; try assumption.
  - intros [e He] Hin. destruct (Hret Hin) as [fill Hfill]. congruence.
  - intros Hnot. eexists. apply Hthrow, Hnot.
Qed.

(** A gradient with its stops and a solid paint with its color are returned
    as fills; a paint of an unknown tag makes [parsePaint] throw. *)
Lemma parsePaint_throws_iff_unknown_type_witness :
  (exists fill, parsePaint red_to_teal = Return fill) /\
  (exists fill, parsePaint (solid_paint red None) = Return fill) /\
  ((exists e, parsePaint emoji_paint = Throw e) <->
   ~ In (Paint.type emoji_paint) handled_types) /\
  parsePaint emoji_paint = Throw (Error ("Unknown paint type: " ++ Paint.type emoji_paint)).
Proof.
  split; [|split; [|split]].
  - apply (parsePaint_throws_iff_unknown_type red_to_teal).
    + split; simpl; intros H; discriminate.
    + simpl. tauto.
  - apply (parsePaint_throws_iff_unknown_type (solid_paint red None)).
    + split; simpl; intros H; [discriminate | intuition discriminate].
    + simpl. tauto.
  - apply (parsePaint_throws_iff_unknown_type emoji_paint).
    split; simpl; [discriminate | intuition discriminate].
  - apply (parsePaint_throws_iff_unknown_type emoji_paint).
    + split; simpl; [discriminate | intuition discriminate].
    + simpl. intuition discriminate.
Defined.

(** ** The layout shorthand: generateCSSShorthand *)

(** C4: the shorthand follows the priority of the specification: absent when
    [ignoreZero] (by default [true]) and the four sides are 0; else one value
    when the four are equal; else two values (top, right) when right equals
    left and top equals bottom; else three values (top, right, bottom) when
    right equals left; else the four values top, right, bottom, left. So
    equal top and bottom with different right and left give the four values.
    Each value carries the suffix (by default px); the values are separated
    by one space. *)
Theorem generateCSSShorthand_priority :
  forall (values : Sides.t) (options : Options.t),
    let ignoreZero := default true (Options.ignoreZero options) in
    let suffix := default "px" (Options.suffix options) in
    let top := Sides.top values in
    let right := Sides.right values in
    let bottom := Sides.bottom values in
    let left := Sides.left values in
    let all_zero := ((top =? 0) && (right =? 0) && (bottom =? 0) && (left =? 0))%float in
    let all_equal := ((top =? right) && (right =? bottom) && (bottom =? left))%float in
    let sized x := Number_toString x ++ suffix in
    generateCSSShorthand values options =
    (if ignoreZero && all_zero then None
     else if all_equal then Some (sized top)
     else if (right =? left)%float && (top =? bottom)%float then
       Some (sized top ++ " " ++ sized right)
     else if (right =? left)%float then
       Some (sized top ++ " " ++ sized right ++ " " ++ sized bottom)
     else
       Some (sized top ++ " " ++ sized right ++ " " ++ sized bottom ++ " " ++ sized left))
    /\
    ((top =? bottom)%float = true -> (right =? left)%float = false ->
     generateCSSShorthand values options =
     Some (sized top ++ " " ++ sized right ++ " " ++ sized bottom ++ " " ++ sized left))
    /\
    generateCSSShorthand values Options.none =
    generateCSSShorthand values
      {| Options.ignoreZero := Some true; Options.suffix := Some "px" |}.
Proof.
  intros values options ignoreZero suffix top right bottom left all_zero all_equal sized.
  assert (Hcode : generateCSSShorthand values options =
    (if ignoreZero && all_zero then None
     else if all_equal then Some (sized top)
     else if (right =? left)%float && (top =? bottom)%float then
       Some (sized top ++ " " ++ sized right)
     else if (right =? left)%float then
       Some (sized top ++ " " ++ sized right ++ " " ++ sized bottom)
     else
       Some (sized top ++ " " ++ sized right ++ " " ++ sized bottom ++ " " ++ sized left))).
  { unfold generateCSSShorthand.
    fold ignoreZero suffix top right bottom left.
    unfold all_zero, all_equal, sized. rewrite !andb_assoc, !append_assoc.
    destruct (ignoreZero && (top =? 0) && (right =? 0) && (bottom =? 0) && (left =? 0))%float;
      [reflexivity|].
    destruct ((top =? right) && (right =? bottom) && (bottom =? left))%float; [reflexivity|].
    destruct (right =? left)%float; [|reflexivity].
    destruct (top =? bottom)%float; reflexivity. }
  split; [exact Hcode|]. split; [|reflexivity].
  intros Htb Hrl. rewrite Hcode, Hrl. simpl.
  assert (Hz : all_zero = false).
  { unfold all_zero. destruct (right =? 0)%float eqn:Hr; [|now rewrite andb_false_r].
    destruct (left =? 0)%float eqn:Hl; [|now rewrite andb_false_r].
    rewrite (eqb_trans _ _ _ Hr (eqb_sym _ _ Hl)) in Hrl. discriminate. }
  assert (He : all_equal = false).
  { unfold all_equal. destruct (right =? bottom)%float eqn:Hr; [|now rewrite andb_false_r].
    destruct (bottom =? left)%float eqn:Hl; [|now rewrite andb_false_r].
    rewrite (eqb_trans _ _ _ Hr Hl) in Hrl. discriminate. }
  now rewrite Hz, He, andb_false_r.
Qed.

(** Equal top and bottom with different right and left, under the default
    options: the four values. *)
Lemma generateCSSShorthand_priority_witness :
  generateCSSShorthand
    {| Sides.top := 10; Sides.right := 20; Sides.bottom := 10; Sides.left := 30 |}
    Options.none = Some "10px 20px 10px 30px".
Proof.
  rewrite (proj1 (proj2 (generateCSSShorthand_priority
                           {| Sides.top := 10; Sides.right := 20;
                              Sides.bottom := 10; Sides.left := 30 |}
                           Options.none)) eq_refl eq_refl).
  reflexivity.
Defined.

(** The examples of the specification, with the default options. *)
Lemma generateCSSShorthand_examples :
  let sides t r b l := {| Sides.top := t; Sides.right := r; Sides.bottom := b; Sides.left := l |} in
  generateCSSShorthand (sides 10 10 10 10)%float Options.none = Some "10px" /\
  generateCSSShorthand (sides 10 20 10 20)%float Options.none = Some "10px 20px" /\
  generateCSSShorthand (sides 10 20 30 20)%float Options.none = Some "10px 20px 30px" /\
  generateCSSShorthand (sides 10 20 30 40)%float Options.none = Some "10px 20px 30px 40px" /\
  generateCSSShorthand (sides 0 0 0 0)%float Options.none = None /\
  generateCSSShorthand (sides 10 20 10 30)%float Options.none = Some "10px 20px 10px 30px".
Proof. vm_compute. repeat split. Qed.

(** ** Colors: convertColor, formatRGBAColor and parsePaint *)

Section Colors.

Lemma holds_255 : holds (Prim2SF 255) false 255.
Proof.
  exists 8972014882652160%positive, (-45). repeat split; try reflexivity. lia.
Qed.

(** The rounded channel [Math.round(c * 255)] is an integer [k] of 0..255;
    shifting it and adding it to an integer are exact. *)
Lemma rounded_channel (c : float) :
  unit_interval c ->
  exists k, 0 <= k <= 255 /\
    to_integer (Prim2SF (Math_round (c * 255))) = Some k /\
    shl (Math_round (c * 255)) 16 = Z2f (k * 65536) /\
    shl (Math_round (c * 255)) 8 = Z2f (k * 256) /\
    (forall N, 0 < N -> N + k < 2 ^ 53 ->
               (Z2f N + Math_round (c * 255))%float = Z2f (N + k)).
Proof.
  intros [H0 H1].
  pose proof (mul_unit_within c 255 255 ltac:(lia) holds_255 H0 H1) as Hw.
  destruct (Math_round_within _ 255 ltac:(lia) Hw) as [->|(k & Hk & ->)].
  - exists 0. repeat split; try reflexivity; try lia.
    intros N HN HN'. destruct N as [|N|N]; try lia.
    rewrite Z.add_0_r. apply add_neg_zero_r. lia.
  - exists k. split; [assumption|]. split; [apply to_integer_Z2f; lia|].
    unfold shl. rewrite ToInt32_Z2f by lia.
    change (2 ^ 16) with 65536. change (2 ^ 8) with 256.
    rewrite !wrap32_small by lia. repeat split.
    intros N HN HN'. apply add_exact; lia.
Qed.

(** C5: for a color whose channels are in [[0, 1]] and any external opacity
    (1 when absent), [convertColor] returns the opacity
    [round (opacity * a * 100) / 100] and the hex string made of ["#"] and,
    for each of r, g, b separately, the two upper-case hexadecimal digits
    (zero-padded) of the integer [round (channel * 255)], which is in 0..255;
    in particular pure red with opacity 1 gives ["#FF0000"] and opacity 1. *)
Theorem convertColor_spec :
  forall (color : RGBA.t) (opacity : option float),
    unit_interval (RGBA.r color) ->
    unit_interval (RGBA.g color) ->
    unit_interval (RGBA.b color) ->
    exists r g b : Z,
      to_integer (Prim2SF (Math_round (RGBA.r color * 255))) = Some r /\
      to_integer (Prim2SF (Math_round (RGBA.g color * 255))) = Some g /\
      to_integer (Prim2SF (Math_round (RGBA.b color * 255))) = Some b /\
      0 <= r <= 255 /\ 0 <= g <= 255 /\ 0 <= b <= 255 /\
      convertColor color opacity =
      {| ColorValue.hex := "#" ++ hex_byte r ++ hex_byte g ++ hex_byte b;
         ColorValue.opacity :=
           (Math_round (default 1 opacity * RGBA.a color * 100) / 100)%float |} /\
      convertColor red (Some 1%float) =
      {| ColorValue.hex := "#FF0000"; ColorValue.opacity := 1 |}.
Proof.
  intros color opacity Hr Hg Hb.
  destruct (rounded_channel _ Hr) as (r & Hr255 & Hri & Hr16 & _ & _).
  destruct (rounded_channel _ Hg) as (g & Hg255 & Hgi & _ & Hg8 & _).
  destruct (rounded_channel _ Hb) as (b & Hb255 & Hbi & _ & _ & Hbadd).
  exists r, g, b. repeat (split; [assumption|]). split; [|reflexivity].
  unfold convertColor. cbv zeta. f_equal.
  rewrite Hr16, Hg8. change (shl 1 24) with (Z2f 16777216).
  rewrite !add_exact by lia. rewrite Hbadd by lia.
  rewrite Number_toString16_Z2f by lia.
  rewrite digits_of_rgb by lia. cbn [slice1 toUpperCase].
  assert (Hdiv : forall k, 0 <= k <= 255 -> 0 <= k / 16 < 16).
  { intros k Hk. split; [apply Z.div_pos | apply Z.div_lt_upper_bound]; lia. }
  assert (Hmod : forall k, 0 <= k mod 16 < 16) by (intros k; apply Z.mod_pos_bound; lia).
  rewrite !upper_digit_char by auto. reflexivity.
Qed.

Lemma convertColor_spec_witness :
  exists r g b : Z,
    to_integer (Prim2SF (Math_round (RGBA.r teal * 255))) = Some r /\
    to_integer (Prim2SF (Math_round (RGBA.g teal * 255))) = Some g /\
    to_integer (Prim2SF (Math_round (RGBA.b teal * 255))) = Some b /\
    0 <= r <= 255 /\ 0 <= g <= 255 /\ 0 <= b <= 255 /\
    convertColor teal (Some 0.5%float) =
    {| ColorValue.hex := "#" ++ hex_byte r ++ hex_byte g ++ hex_byte b;
       ColorValue.opacity :=
         (Math_round (default 1 (Some 0.5) * RGBA.a teal * 100) / 100)%float |} /\
    convertColor red (Some 1%float) =
    {| ColorValue.hex := "#FF0000"; ColorValue.opacity := 1 |}.
Proof.
  apply (convertColor_spec teal (Some 0.5%float)); split; reflexivity.
Defined.

Lemma gradient_not_image_or_solid (t : string) :
  In t gradient_types -> String.eqb t "IMAGE" = false /\ String.eqb t "SOLID" = false.
Proof.
  intros [<-|[<-|[<-|[<-|[]]]]]; split; reflexivity.
Qed.

(** C2: for a paint of one of the four gradient types, [parsePaint] returns
    the gradient with the paint's type and handle positions, and the stops
    in order, each with its position and with the color
    [convertColor stop.color], which is [convertColor] under the default
    external opacity 1; the opacity of a stop is therefore
    [round (stop.color.a * 100) / 100], and the result does not depend on the
    paint's opacity. *)
Theorem parsePaint_gradient :
  forall (raw : Paint.t) (stops : list ColorStop.t),
    In (Paint.type raw) gradient_types ->
    Paint.gradientStops raw = Some stops ->
    parsePaint raw =
    Return (FillGradient (Paint.type raw) (Paint.gradientHandlePositions raw)
              (map (fun stop =>
                      (ColorStop.position stop, convertColor (ColorStop.color stop) None))
                   stops)) /\
    (forall color, convertColor color None = convertColor color (Some 1%float)) /\
    (forall color,
        ColorValue.opacity (convertColor color None) =
        (Math_round (RGBA.a color * 100) / 100)%float) /\
    (forall o, parsePaint (with_opacity raw o) = parsePaint raw).
Proof.
  intros raw stops Htype Hstops.
  destruct (gradient_not_image_or_solid _ Htype) as [Himage Hsolid].
  apply includes_In in Htype.
  assert (Hparse : forall o, parsePaint (with_opacity raw o) =
    Return (FillGradient (Paint.type raw) (Paint.gradientHandlePositions raw)
              (map (fun stop =>
                      (ColorStop.position stop, convertColor (ColorStop.color stop) None))
                   stops))).
  { intros o. unfold parsePaint, with_opacity. cbn [Paint.type Paint.gradientStops
      Paint.gradientHandlePositions Paint.color Paint.opacity Paint.imageRef Paint.scaleMode].
    now rewrite Himage, Hsolid, Htype, Hstops. }
  assert (Hraw : parsePaint raw = parsePaint (with_opacity raw (Paint.opacity raw))).
  { destruct raw; reflexivity. }
  repeat split.
  - now rewrite Hraw, Hparse.
  - intros color. unfold convertColor. cbn [default ColorValue.opacity].
    now rewrite mul_1_l.
  - intros o. now rewrite Hraw, !Hparse.
Qed.

Lemma parsePaint_gradient_witness :
  parsePaint red_to_teal =
  Return (FillGradient "GRADIENT_LINEAR" (Paint.gradientHandlePositions red_to_teal)
            [ (0%float, {| ColorValue.hex := "#FF0000"; ColorValue.opacity := 0.5 |});
              (1%float, {| ColorValue.hex := "#2080BF"; ColorValue.opacity := 0.5 |}) ]).
Proof.
  rewrite (proj1 (parsePaint_gradient red_to_teal _ (or_introl eq_refl) eq_refl)).
  reflexivity.
Defined.

(** How [parsePaint] treats a [SOLID] paint: the color is converted under
    the paint's opacity; the hex string is returned when the combined opacity
    is 1, and otherwise [formatRGBAColor] is called with the color and the
    combined opacity, which multiplies the alpha of the color in again. *)
Lemma parsePaint_solid (color : RGBA.t) (o : option float) :
  let combined := ColorValue.opacity (convertColor color o) in
  parsePaint (solid_paint color o) =
  Return (FillColor
            (if (combined =? 1)%float then ColorValue.hex (convertColor color o)
             else "rgba(" ++ Number_toString (Math_round (RGBA.r color * 255)) ++ ", "
                  ++ Number_toString (Math_round (RGBA.g color * 255)) ++ ", "
                  ++ Number_toString (Math_round (RGBA.b color * 255)) ++ ", "
                  ++ Number_toString (Math_round (combined * RGBA.a color * 100) / 100)%float
                  ++ ")")).
Proof.
  intros combined. unfold parsePaint, solid_paint.
  cbn [Paint.type Paint.color Paint.opacity]. fold combined.
  change (String.eqb "SOLID" "IMAGE") with false.
  change (String.eqb "SOLID" "SOLID") with true. cbv iota.
  destruct (combined =? 1)%float; reflexivity.
Qed.

(** C1 (the code departs from it): on red with alpha 0.5 under layer opacity
    1 the combined opacity is 0.5, and [parsePaint] emits the alpha 0.25:
    the alpha of the color is folded in twice. Under layer opacity 0.5 and
    alpha 1 the alpha emitted is the combined opacity 0.5; a combined opacity
    of 1 gives the bare hex string. *)
Theorem parsePaint_solid_folds_alpha_twice :
  ColorValue.opacity (convertColor half_red (Some 1%float)) = 0.5%float /\
  parsePaint (solid_paint half_red (Some 1%float)) =
  Return (FillColor "rgba(255, 0, 0, 0.25)") /\
  parsePaint (solid_paint half_red None) = Return (FillColor "rgba(255, 0, 0, 0.25)") /\
  parsePaint (solid_paint red (Some 0.5%float)) = Return (FillColor "rgba(255, 0, 0, 0.5)") /\
  parsePaint (solid_paint red (Some 1%float)) = Return (FillColor "#FF0000").
Proof. vm_compute. repeat split. Qed.

End Colors.

(** ** hexToRgba *)

(** What the clamp of [hexToRgba] achieves: for every hex string and every
    opacity that is not NaN, the alpha emitted is [min (max (o, 0), 1)],
    which is in [[0, 1]]: 0 for a negative opacity, 1 for an opacity above 1;
    an absent opacity counts as 1. *)
Lemma hexToRgba_clamps_opacity :
  forall (hex : string) (o : float),
    is_nan o = false ->
    let alpha := Math_min (Math_max o 0) 1 in
    (exists r g b : float,
        hexToRgba hex (Some o) =
        "rgba(" ++ Number_toString r ++ ", " ++ Number_toString g ++ ", "
                ++ Number_toString b ++ ", " ++ Number_toString alpha ++ ")") /\
    (0 <=? alpha)%float = true /\ (alpha <=? 1)%float = true /\
    ((o <? 0)%float = true -> alpha = 0%float) /\
    ((1 <? o)%float = true -> alpha = 1%float) /\
    hexToRgba hex None = hexToRgba hex (Some 1%float).
Proof.
  intros hex o Ho alpha.
  destruct (clamp_spec o Ho) as (H0 & H1 & Hneg & Hpos).
  split; [|repeat split; assumption].
  unfold hexToRgba. cbv zeta. cbn [default]. fold alpha. eauto.
Qed.

(** The example of the specification, and opacities outside [[0, 1]]. *)
Lemma hexToRgba_examples :
  hexToRgba "#FFF" (Some 0.5%float) = "rgba(255, 255, 255, 0.5)" /\
  hexToRgba "#FF0000" (Some (-3)%float) = "rgba(255, 0, 0, 0)" /\
  hexToRgba "#FF0000" (Some 7%float) = "rgba(255, 0, 0, 1)" /\
  hexToRgba "#FF0000" None = "rgba(255, 0, 0, 1)".
Proof. vm_compute. repeat split. Qed.

(** C10 (the code departs from it): the clamp
    [Math.min(Math.max(opacity, 0), 1)], which is to keep the opacity within
    0..1, lets NaN through: for every hex string the alpha emitted for the
    opacity NaN is [NaN], which is not in [[0, 1]];
    [hexToRgba("#FFF", NaN)] is ["rgba(255, 255, 255, NaN)"]. *)
Theorem hexToRgba_nan_opacity :
  hexToRgba "#FFF" (Some nan) = "rgba(255, 255, 255, NaN)" /\
  (0 <=? Math_min (Math_max nan 0) 1)%float = false /\
  (Math_min (Math_max nan 0) 1 <=? 1)%float = false /\
  (forall hex : string,
      exists r g b : float,
        hexToRgba hex (Some nan) =
        "rgba(" ++ Number_toString r ++ ", " ++ Number_toString g ++ ", "
                ++ Number_toString b ++ ", NaN)").
Proof.
  split; [vm_compute; reflexivity|]. split; [reflexivity|]. split; [reflexivity|].
  intros hex. unfold hexToRgba. cbv zeta. cbn [default].
  change (Number_toString (Math_min (Math_max nan 0) 1)) with "NaN". eauto.
Qed.

(** ** Generated identifiers: generateVarId *)

Section VarId.

Lemma random_token_step (n : nat) (result : string) (rnd : Random) :
  random_token (S n) result rnd =
  random_token n (append_indexed result (drawn rnd 0)) (advance 1 rnd).
Proof. reflexivity. Qed.

Lemma valid_random_drawn (rnd : Random) (i : nat) :
  valid_random rnd ->
  exists c, drawn rnd i = Some c /\ In c (list_ascii_of_string chars).
Proof.
  intros Hvalid. destruct (Hvalid (i + next rnd)%nat) as [H0 H1].
  exact (draw_selects _ H0 H1).
Qed.

(** The six characters of a token, when each draw selects a character. *)
Lemma generateVarId_token (prefix : option string) (rnd : Random) (c0 c1 c2 c3 c4 c5 : ascii) :
  drawn rnd 0 = Some c0 -> drawn rnd 1 = Some c1 -> drawn rnd 2 = Some c2 ->
  drawn rnd 3 = Some c3 -> drawn rnd 4 = Some c4 -> drawn rnd 5 = Some c5 ->
  generateVarId prefix rnd =
  (default "var" prefix ++ "_" ++ string_of_list_ascii [c0; c1; c2; c3; c4; c5],
   advance 6 rnd).
Proof.
  intros H0 H1 H2 H3 H4 H5. unfold generateVarId.
  rewrite !random_token_step.
  change (drawn (advance 1 rnd) 0) with (drawn rnd 1).
  change (drawn (advance 1 (advance 1 rnd)) 0) with (drawn rnd 2).
  change (drawn (advance 1 (advance 1 (advance 1 rnd))) 0) with (drawn rnd 3).
  change (drawn (advance 1 (advance 1 (advance 1 (advance 1 rnd)))) 0) with (drawn rnd 4).
  change (drawn (advance 1 (advance 1 (advance 1 (advance 1 (advance 1 rnd))))) 0)
    with (drawn rnd 5).
  rewrite H0, H1, H2, H3, H4, H5. reflexivity.
Qed.

(** C3 (as amended): under the contract of [Math.random], an identifier is
    the prefix (by default var), an underscore, and a token of the six
    characters of [chars] that the six draws select; the generator has then
    made six draws. Nothing makes the identifiers of a run distinct: two
    calls with the same prefix return the same identifier exactly when
    their draws select the same six characters. *)
Theorem generateVarId_form :
  forall (prefix : option string) (rnd : Random),
    valid_random rnd ->
    (exists token : list ascii,
        List.length token = 6%nat /\
        (forall i, (i < 6)%nat -> nth_error token i = drawn rnd i) /\
        Forall (fun c => In c (list_ascii_of_string chars)) token /\
        generateVarId prefix rnd =
        (default "var" prefix ++ "_" ++ string_of_list_ascii token, advance 6 rnd)) /\
    (forall rnd' : Random,
        valid_random rnd' ->
        (fst (generateVarId prefix rnd) = fst (generateVarId prefix rnd') <->
         forall i, (i < 6)%nat -> drawn rnd i = drawn rnd' i)).
Proof.
  intros prefix rnd Hvalid.
  assert (Hsix : forall i P, (i < 6)%nat ->
            P 0%nat -> P 1%nat -> P 2%nat -> P 3%nat -> P 4%nat -> P 5%nat -> P i).
  { intros i P Hi P0 P1 P2 P3 P4 P5.
    do 6 (destruct i as [|i]; [assumption|]). lia. }
  destruct (valid_random_drawn rnd 0 Hvalid) as (c0 & H0 & I0).
  destruct (valid_random_drawn rnd 1 Hvalid) as (c1 & H1 & I1).
  destruct (valid_random_drawn rnd 2 Hvalid) as (c2 & H2 & I2).
  destruct (valid_random_drawn rnd 3 Hvalid) as (c3 & H3 & I3).
  destruct (valid_random_drawn rnd 4 Hvalid) as (c4 & H4 & I4).
  destruct (valid_random_drawn rnd 5 Hvalid) as (c5 & H5 & I5).
  pose proof (generateVarId_token prefix rnd _ _ _ _ _ _ H0 H1 H2 H3 H4 H5) as Hid.
  split.
  - exists [c0; c1; c2; c3; c4; c5]. split; [reflexivity|]. split; [|split].
    + intros i Hi. apply (Hsix i (fun i => nth_error _ i = drawn rnd i)); auto.
    + repeat (apply Forall_cons; [assumption|]). apply Forall_nil.
    + exact Hid.
  - intros rnd' Hvalid'.
    destruct (valid_random_drawn rnd' 0 Hvalid') as (d0 & G0 & _).
    destruct (valid_random_drawn rnd' 1 Hvalid') as (d1 & G1 & _).
    destruct (valid_random_drawn rnd' 2 Hvalid') as (d2 & G2 & _).
    destruct (valid_random_drawn rnd' 3 Hvalid') as (d3 & G3 & _).
    destruct (valid_random_drawn rnd' 4 Hvalid') as (d4 & G4 & _).
    destruct (valid_random_drawn rnd' 5 Hvalid') as (d5 & G5 & _).
    rewrite Hid, (generateVarId_token prefix rnd' _ _ _ _ _ _ G0 G1 G2 G3 G4 G5).
    cbn [fst]. split.
    + intros Heq. apply append_inj_l in Heq. apply (append_inj_l "_") in Heq.
      cbn [string_of_list_ascii] in Heq. injection Heq as -> -> -> -> -> ->.
      intros i Hi. apply (Hsix i (fun i => drawn rnd i = drawn rnd' i)); congruence.
    + intros Hsame.
      pose proof (Hsame 0%nat ltac:(lia)) as E0. pose proof (Hsame 1%nat ltac:(lia)) as E1.
      pose proof (Hsame 2%nat ltac:(lia)) as E2. pose proof (Hsame 3%nat ltac:(lia)) as E3.
      pose proof (Hsame 4%nat ltac:(lia)) as E4. pose proof (Hsame 5%nat ltac:(lia)) as E5.
      repeat f_equal; congruence.
Qed.

Lemma repeating_valid : valid_random repeating.
Proof.
  intros n. do 12 (destruct n as [|n]; [split; reflexivity|]).
  simpl. destruct n; split; reflexivity.
Qed.

Lemma generateVarId_form_witness :
  (exists token : list ascii,
      List.length token = 6%nat /\
      (forall i, (i < 6)%nat -> nth_error token i = drawn repeating i) /\
      Forall (fun c => In c (list_ascii_of_string chars)) token /\
      generateVarId (Some "fill") repeating =
      (default "var" (Some "fill") ++ "_" ++ string_of_list_ascii token, advance 6 repeating)) /\
  (forall rnd' : Random,
      valid_random rnd' ->
      (fst (generateVarId (Some "fill") repeating) = fst (generateVarId (Some "fill") rnd') <->
       forall i, (i < 6)%nat -> drawn repeating i = drawn rnd' i)).
Proof. exact (generateVarId_form (Some "fill") repeating repeating_valid). Defined.

(** C3 as stated fails: in a run whose draws are pairwise different Numbers
    of [[0, 1)], the first and the second call return the same identifier. *)
Lemma generateVarId_collision :
  valid_random repeating /\
  NoDup (map (draws repeating) (seq 0 12)) /\
  let '(first, rnd1) := generateVarId (Some "fill") repeating in
  let '(second, rnd2) := generateVarId (Some "fill") rnd1 in
  first = "fill_BGMSX3" /\ second = "fill_BGMSX3" /\ first = second /\
  next rnd1 = 6%nat /\ next rnd2 = 12%nat.
Proof.
  split; [exact repeating_valid|]. split.
  - simpl. repeat constructor; simpl; intros H;
      repeat (destruct H as [H|H]; [apply (f_equal Prim2SF) in H; discriminate|]);
      exact H.
  - vm_compute. repeat split.
Qed.

End VarId.

(** * Further properties *)

(** ** removeEmptyKeys: what the result is free of, and what it leaves alone *)

Section Compaction.

(** Induction on values, through the elements of arrays and the property
    values of objects. *)
Lemma value_induction (P : value -> Prop) :
  P VUndefined -> P VNull -> (forall b, P (VBool b)) -> (forall x, P (VNumber x)) ->
  (forall s, P (VString s)) ->
  (forall items, Forall P items -> P (VArray items)) ->
  (forall props, Forall (fun kv => P (snd kv)) props -> P (VObject props)) ->
  forall v, P v.
Proof.
  intros Hu Hn Hb Hx Hs Ha Ho. fix IH 1.
  intros [| |b|x|s|items|props];
    [exact Hu | exact Hn | apply Hb | apply Hx | apply Hs | apply Ha | apply Ho].
  - revert items. fix IHitems 1.
    intros [|i rest]; constructor; [apply IH | apply IHitems].
  - revert props. fix IHprops 1.
    intros [|[k w] rest]; constructor; [apply IH | apply IHprops].
Qed.

Lemma distinct_NoDup (keys : list string) : distinct keys = true -> NoDup keys.
Proof.
  induction keys as [|k rest IH]; simpl; intros H; constructor.
  - apply andb_prop in H as [H _]. intros Hin.
    apply negb_true_iff in H. apply not_true_iff_false in H. apply H.
    apply existsb_exists. exists k. split; [assumption | apply String.eqb_refl].
  - apply IH. now apply andb_prop in H.
Qed.

Lemma fst_cleaned (props : list (string * value)) : map fst (cleaned props) = map fst props.
Proof. unfold cleaned. rewrite map_map. reflexivity. Qed.

Lemma NoDup_fst_filter (f : string * value -> bool) (l : list (string * value)) :
  NoDup (map fst l) -> NoDup (map fst (filter f l)).
Proof.
  induction l as [|[k w] rest IH]; simpl; intros H; [constructor|].
  inversion H as [|? ? Hk Hrest]; subst. destruct (f (k, w)); simpl; auto.
  constructor; auto. intros Hin. apply Hk.
  apply in_map_iff in Hin as ([k' w'] & Hk' & Hin). apply filter_In in Hin as [Hin _].
  apply in_map_iff. now exists (k', w').
Qed.

(** What [removeEmptyKeys] gives of an object with distinct keys. *)
Lemma removeEmptyKeys_filter (props : list (string * value)) :
  distinct (map fst props) = true ->
  removeEmptyKeys (VObject props) = VObject (filter copied (cleaned props)).
Proof. intros H. now apply removeEmptyKeys_own_properties, distinct_NoDup. Qed.

(** Assigning a property keeps a condition on the properties that the
    assigned one meets, unless its key is ["__proto__"]. *)
Lemma set_property_forallb (F : string * value -> bool) result key v :
  forallb F result = true -> (key <> "__proto__" -> F (key, v) = true) ->
  forallb F (set_property result key v) = true.
Proof.
  intros Hres Hv. unfold set_property.
  destruct (String.eqb_spec key "__proto__") as [_|Hkey]; [assumption|].
  specialize (Hv Hkey).
  induction result as [|[k w] rest IH]; simpl in *.
  - now rewrite Hv.
  - apply andb_prop in Hres as [Hw Hrest].
    destruct (String.eqb_spec k key) as [->|_]; simpl; [now rewrite Hv | now rewrite Hw, IH].
Qed.

(** A condition that every cleaned property meets holds of the properties
    of the result. *)
Lemma loop_forallb (F : string * value -> bool) props :
  Forall (fun kv => kept (removeEmptyKeys (snd kv)) = true -> fst kv <> "__proto__" ->
                    F (fst kv, removeEmptyKeys (snd kv)) = true) props ->
  forall out, removeEmptyKeys (VObject props) = VObject out -> forallb F out = true.
Proof.
  intros Hprops out. rewrite removeEmptyKeys_object. intros [= <-].
  generalize (eq_refl : forallb F [] = true).
  generalize (@nil (string * value)) as result.
  induction Hprops as [|[k w] rest Hw _ IH]; intros result Hres; simpl; [assumption|].
  apply IH. cbn [fst snd] in Hw.
  destruct (kept (removeEmptyKeys w)) eqn:Hk; [|assumption].
  apply set_property_forallb; auto.
Qed.

End Compaction.

(** X1: whatever the input, no object in the result of [removeEmptyKeys], at
    any depth, has an own property whose value is [undefined], an empty array
    or an empty object, nor one with the key ["__proto__"]; and a value that
    already is so (its keys distinct) is returned unchanged. *)
Theorem removeEmptyKeys_result_compact :
  (forall v, compact (removeEmptyKeys v) = true) /\
  (forall v, proto_free (removeEmptyKeys v) = true) /\
  (forall v, unique_keys v = true -> proto_free v = true -> compact v = true ->
             removeEmptyKeys v = v).
Proof.
  split; [|split].
  - induction v as [| | | | |items IH|props IH] using value_induction; try reflexivity.
    + simpl. induction IH as [|i rest Hi _ IHrest]; simpl; [reflexivity|].
      now rewrite Hi, IHrest.
    + destruct (removeEmptyKeys (VObject props)) as [| | | | | |out] eqn:Hout;
        try discriminate Hout.
      change (forallb (fun kv : string * value => let '(_, w) := kv in kept w && compact w)
                out = true).
      apply (loop_forallb _ props); [|assumption].
      apply Forall_impl with (2 := IH). intros [k w] Hw Hk _. cbn [fst snd] in *.
      now rewrite Hk, Hw.
  - induction v as [| | | | |items IH|props IH] using value_induction; try reflexivity.
    + simpl. induction IH as [|i rest Hi _ IHrest]; simpl; [reflexivity|].
      now rewrite Hi, IHrest.
    + destruct (removeEmptyKeys (VObject props)) as [| | | | | |out] eqn:Hout;
        try discriminate Hout.
      change (forallb (fun kv : string * value =>
                         let '(k, w) := kv in
                         negb (String.eqb k "__proto__") && proto_free w) out = true).
      apply (loop_forallb _ props); [|assumption].
      apply Forall_impl with (2 := IH). intros [k w] Hw _ Hk. cbn [fst snd] in *.
      apply String.eqb_neq in Hk. now rewrite Hk, Hw.
  - induction v as [| | | | |items IH|props IH] using value_induction; try reflexivity.
    + simpl. intros Hu Hp Hc. f_equal.
      induction IH as [|i rest Hi _ IHrest]; simpl in *; [reflexivity|].
      apply andb_prop in Hu as [Hu1 Hu2]. apply andb_prop in Hp as [Hp1 Hp2].
      apply andb_prop in Hc as [Hc1 Hc2].
      now rewrite Hi, IHrest.
    + intros Hu Hp Hc. simpl in Hu. apply andb_prop in Hu as [Hd Hu].
      rewrite removeEmptyKeys_filter by assumption. f_equal.
      simpl in Hp, Hc. clear Hd.
      induction IH as [|[k w] rest Hw _ IHrest]; simpl in *; [reflexivity|].
      apply andb_prop in Hu as [Hu1 Hu2]. apply andb_prop in Hp as [Hp1 Hp2].
      apply andb_prop in Hc as [Hc1 Hc2].
      apply andb_prop in Hp1 as [Hk Hp1]. apply andb_prop in Hc1 as [Hkept Hc1].
      unfold copied at 1. cbn [fst snd].
      rewrite Hw, Hk, Hkept, IHrest by assumption. reflexivity.
Qed.

Lemma removeEmptyKeys_result_compact_witness :
  compact (removeEmptyKeys (VObject [("a", VObject [("b", VArray [])]);
                                     ("c", VArray [VObject []])])) = true /\
  proto_free (removeEmptyKeys (VObject [("__proto__", VObject [("x", VNumber 1)]);
                                        ("b", VNumber 2)])) = true /\
  removeEmptyKeys (VObject [("c", VArray [VObject []]); ("n", VNull)]) =
  VObject [("c", VArray [VObject []]); ("n", VNull)].
Proof.
  split; [|split].
  - apply (proj1 removeEmptyKeys_result_compact).
  - apply (proj1 (proj2 removeEmptyKeys_result_compact)).
  - apply (proj2 (proj2 removeEmptyKeys_result_compact)); reflexivity.
Defined.

(** X2: [removeEmptyKeys] is idempotent on values whose objects have
    distinct keys: cleaning a cleaned value changes nothing. *)
Theorem removeEmptyKeys_idempotent :
  forall v, unique_keys v = true ->
            removeEmptyKeys (removeEmptyKeys v) = removeEmptyKeys v.
Proof.
  induction v as [| | | | |items IH|props IH] using value_induction; try reflexivity.
  - simpl. intros Hu. f_equal. rewrite map_map.
    induction IH as [|i rest Hi _ IHrest]; simpl in *; [reflexivity|].
    apply andb_prop in Hu as [Hu1 Hu2]. now rewrite Hi, IHrest.
  - intros Hu. simpl in Hu. apply andb_prop in Hu as [Hd Hu].
    rewrite removeEmptyKeys_filter by assumption.
    rewrite removeEmptyKeys_own_properties.
    2:{ apply NoDup_fst_filter. rewrite fst_cleaned. now apply distinct_NoDup. }
    f_equal. clear Hd.
    induction IH as [|[k w] rest Hw _ IHrest]; simpl in *; [reflexivity|].
    apply andb_prop in Hu as [Hu1 Hu2].
    destruct (copied (k, removeEmptyKeys w)) eqn:Hk; simpl.
    + rewrite Hw by assumption. rewrite Hk, IHrest by assumption. reflexivity.
    + now apply IHrest.
Qed.

Lemma removeEmptyKeys_idempotent_witness :
  removeEmptyKeys
    (removeEmptyKeys (VObject [("a", VObject [("b", VArray [])]);
                               ("c", VArray [VObject []]); ("d", VNumber 0)])) =
  removeEmptyKeys (VObject [("a", VObject [("b", VArray [])]);
                            ("c", VArray [VObject []]); ("d", VNumber 0)]).
Proof.
  apply (removeEmptyKeys_idempotent
           (VObject [("a", VObject [("b", VArray [])]);
                     ("c", VArray [VObject []]); ("d", VNumber 0)])).
  reflexivity.
Defined.

(** ** generateCSSShorthand: when it gives nothing, and what a result stands for *)

Section Shorthand.

(** Two Numbers that [===] holds of are printed alike. *)
Lemma eqb_toString (x y : float) :
  (x =? y)%float = true -> Number_toString x = Number_toString y.
Proof.
  rewrite FloatAxioms.eqb_spec. intros H. apply SFeqb_shape in H.
  unfold Number_toString.
  destruct (Prim2SF x) as [s1|s1| |s1 m1 e1], (Prim2SF y) as [s2|s2| |s2 m2 e2];
    simpl in H; try contradiction.
  - reflexivity.
  - now subst.
  - destruct H as (-> & -> & ->). reflexivity.
Qed.

Lemma same_number_toString (x y : float) :
  same_number x y -> Number_toString x = Number_toString y.
Proof. intros [->|H]; [reflexivity | now apply eqb_toString]. Qed.

Lemma same_sides_texts (s1 s2 : Sides.t) : same_sides s1 s2 -> side_texts s1 = side_texts s2.
Proof.
  intros (Ht & Hr & Hb & Hl). unfold side_texts. simpl.
  now rewrite (same_number_toString _ _ Ht), (same_number_toString _ _ Hr),
    (same_number_toString _ _ Hb), (same_number_toString _ _ Hl).
Qed.

End Shorthand.

(** X3: [generateCSSShorthand] returns [undefined] exactly when [ignoreZero]
    is not [false] and each of the four sides [=== 0] (which [-0] does and
    NaN does not); with [ignoreZero: false] it always returns a string. *)
Theorem generateCSSShorthand_undefined_iff :
  forall (values : Sides.t) (options : Options.t),
    (generateCSSShorthand values options = None <->
     Options.ignoreZero options <> Some false /\
     (Sides.top values =? 0)%float = true /\ (Sides.right values =? 0)%float = true /\
     (Sides.bottom values =? 0)%float = true /\ (Sides.left values =? 0)%float = true) /\
    (Options.ignoreZero options = Some false ->
     exists css, generateCSSShorthand values options = Some css).
Proof.
  intros [top right bottom left] [ignoreZero suffix].
  unfold generateCSSShorthand. cbn [Sides.top Sides.right Sides.bottom Sides.left
    Options.ignoreZero Options.suffix].
  split.
  - destruct (default true ignoreZero && (top =? 0)%float && (right =? 0)%float
              && (bottom =? 0)%float && (left =? 0)%float) eqn:Hzero.
    + split; [intros _|reflexivity].
      repeat (apply andb_prop in Hzero as [Hzero ?]).
      repeat split; try assumption. intros ->. discriminate.
    + split.
      * destruct ((top =? right)%float && (right =? bottom)%float && (bottom =? left)%float);
          [discriminate|].
        destruct (right =? left)%float; [|discriminate].
        destruct (top =? bottom)%float; discriminate.
      * intros (Hi & Ht & Hr & Hb & Hl). rewrite Ht, Hr, Hb, Hl in Hzero.
        destruct ignoreZero as [[|]|]; try discriminate. now elim Hi.
  - intros ->. simpl.
    destruct ((top =? right)%float && (right =? bottom)%float && (bottom =? left)%float);
      [eauto|].
    destruct (right =? left)%float; [|eauto].
    destruct (top =? bottom)%float; eauto.
Qed.

Lemma generateCSSShorthand_undefined_iff_witness :
  exists css,
    generateCSSShorthand
      {| Sides.top := 0; Sides.right := 0; Sides.bottom := 0; Sides.left := 0 |}
      {| Options.ignoreZero := Some false; Options.suffix := None |} = Some css.
Proof.
  apply (proj2 (generateCSSShorthand_undefined_iff
                  {| Sides.top := 0; Sides.right := 0; Sides.bottom := 0; Sides.left := 0 |}
                  {| Options.ignoreZero := Some false; Options.suffix := None |})).
  reflexivity.
Defined.

(** X4: a string [generateCSSShorthand] returns is a CSS shorthand of one to
    four values, each with the suffix, and it loses nothing: the four sides
    it stands for under the CSS rule (one value for all sides; two for
    top/bottom and right/left; three for top, right/left and bottom; four in
    the order top, right, bottom, left) are the four sides given, up to
    [===], and are printed the same. *)
Theorem generateCSSShorthand_lossless :
  forall (values : Sides.t) (options : Options.t) (css : string),
    generateCSSShorthand values options = Some css ->
    exists (vs : list float) (sides : Sides.t),
      css = shorthand_text (default "px" (Options.suffix options)) vs /\
      expand_shorthand vs = Some sides /\
      same_sides sides values /\
      side_texts sides = side_texts values.
Proof.
  intros [top right bottom left] [ignoreZero suffix] css.
  unfold generateCSSShorthand. cbn [Sides.top Sides.right Sides.bottom Sides.left
    Options.ignoreZero Options.suffix].
  set (sfx := default "px" suffix).
  assert (Hgoal : forall vs sides,
    css = shorthand_text sfx vs -> expand_shorthand vs = Some sides ->
    same_sides sides {| Sides.top := top; Sides.right := right;
                        Sides.bottom := bottom; Sides.left := left |} ->
    exists vs sides,
      css = shorthand_text sfx vs /\ expand_shorthand vs = Some sides /\
      same_sides sides {| Sides.top := top; Sides.right := right;
                          Sides.bottom := bottom; Sides.left := left |} /\
      side_texts sides = side_texts {| Sides.top := top; Sides.right := right;
                                       Sides.bottom := bottom; Sides.left := left |}).
  { intros vs sides H1 H2 H3. exists vs, sides. repeat split; try assumption; try apply H3.
    now apply same_sides_texts. }
  destruct (default true ignoreZero && (top =? 0)%float && (right =? 0)%float
            && (bottom =? 0)%float && (left =? 0)%float); [discriminate|].
  destruct ((top =? right)%float && (right =? bottom)%float && (bottom =? left)%float) eqn:Hall.
  - intros [= <-]. apply andb_prop in Hall as [Hall Hbl]. apply andb_prop in Hall as [Htr Hrb].
    apply (Hgoal [top] _ eq_refl eq_refl).
    repeat split; cbn [Sides.top Sides.right Sides.bottom Sides.left].
    + now left.
    + now right.
    + right. eauto using eqb_trans.
    + right. eauto using eqb_trans.
  - destruct (right =? left)%float eqn:Hrl.
    + destruct (top =? bottom)%float eqn:Htb; intros [= <-].
      * eapply (Hgoal [top; right]); [|reflexivity|].
        { unfold shorthand_text. simpl. now rewrite !append_assoc. }
        repeat split; cbn [Sides.top Sides.right Sides.bottom Sides.left];
          [now left | now left | now right | now right].
      * eapply (Hgoal [top; right; bottom]); [|reflexivity|].
        { unfold shorthand_text. simpl. now rewrite !append_assoc. }
        repeat split; cbn [Sides.top Sides.right Sides.bottom Sides.left];
          [now left | now left | now left | now right].
    + intros [= <-].
      eapply (Hgoal [top; right; bottom; left]); [|reflexivity|].
      { unfold shorthand_text. simpl. now rewrite !append_assoc. }
      repeat split; now left.
Qed.

Lemma generateCSSShorthand_lossless_witness :
  exists (vs : list float) (sides : Sides.t),
    "10px 20px 30px" = shorthand_text (default "px" (Options.suffix Options.none)) vs /\
    expand_shorthand vs = Some sides /\
    same_sides sides
      {| Sides.top := 10; Sides.right := 20; Sides.bottom := 30; Sides.left := 20 |} /\
    side_texts sides =
    side_texts {| Sides.top := 10; Sides.right := 20; Sides.bottom := 30; Sides.left := 20 |}.
Proof.
  apply (generateCSSShorthand_lossless
           {| Sides.top := 10; Sides.right := 20; Sides.bottom := 30; Sides.left := 20 |}
           Options.none "10px 20px 30px").
  vm_compute. reflexivity.
Defined.

(** ** generateVarId: the prefix keeps identifiers apart *)

Section Prefixes.

Lemma length_append (s t : string) :
  String.length (s ++ t) = (String.length s + String.length t)%nat.
Proof. induction s as [|c s IH]; simpl; [reflexivity | now rewrite IH]. Qed.

(** Of two equal concatenations, heads of the same length are equal. *)
Lemma append_inj_length (s1 s2 t1 t2 : string) :
  String.length s1 = String.length s2 -> s1 ++ t1 = s2 ++ t2 -> s1 = s2.
Proof.
  revert s2. induction s1 as [|c s1 IH]; intros [|d s2]; simpl; try discriminate.
  - reflexivity.
  - intros [= Hlen] [= -> Heq]. f_equal. now apply IH.
Qed.

(** Under the contract of [Math.random] the token is six characters. *)
Lemma generateVarId_six (prefix : option string) (rnd : Random) :
  valid_random rnd ->
  exists token, String.length token = 6%nat /\
    generateVarId prefix rnd = (default "var" prefix ++ "_" ++ token, advance 6 rnd).
Proof.
  intros Hvalid.
  destruct (valid_random_drawn rnd 0 Hvalid) as (c0 & H0 & _).
  destruct (valid_random_drawn rnd 1 Hvalid) as (c1 & H1 & _).
  destruct (valid_random_drawn rnd 2 Hvalid) as (c2 & H2 & _).
  destruct (valid_random_drawn rnd 3 Hvalid) as (c3 & H3 & _).
  destruct (valid_random_drawn rnd 4 Hvalid) as (c4 & H4 & _).
  destruct (valid_random_drawn rnd 5 Hvalid) as (c5 & H5 & _).
  exists (string_of_list_ascii [c0; c1; c2; c3; c4; c5]). split; [reflexivity|].
  now apply generateVarId_token.
Qed.

End Prefixes.

(** X5: [Math.random] returning numbers in [[0, 1)], the identifier is
    seven characters longer than the prefix, and identifiers generated under
    different prefixes are different, whatever the draws. *)
Theorem generateVarId_prefix_separates :
  forall (prefix1 prefix2 : option string) (rnd1 rnd2 : Random),
    valid_random rnd1 -> valid_random rnd2 ->
    String.length (fst (generateVarId prefix1 rnd1)) =
    (String.length (default "var" prefix1) + 7)%nat /\
    (default "var" prefix1 <> default "var" prefix2 ->
     fst (generateVarId prefix1 rnd1) <> fst (generateVarId prefix2 rnd2)).
Proof.
  intros prefix1 prefix2 rnd1 rnd2 Hv1 Hv2.
  destruct (generateVarId_six prefix1 rnd1 Hv1) as (t1 & Hl1 & ->).
  destruct (generateVarId_six prefix2 rnd2 Hv2) as (t2 & Hl2 & ->).
  cbn [fst]. split.
  - rewrite !length_append, Hl1. reflexivity.
  - intros Hdiff Heq. apply Hdiff.
    assert (Hlen : String.length (default "var" prefix1) =
                   String.length (default "var" prefix2)).
    { apply (f_equal String.length) in Heq.
      rewrite !length_append, Hl1, Hl2 in Heq. simpl in Heq. lia. }
    exact (append_inj_length _ _ _ _ Hlen Heq).
Qed.

Lemma generateVarId_prefix_separates_witness :
  String.length (fst (generateVarId (Some "fill") repeating)) =
  (String.length (default "var" (Some "fill")) + 7)%nat /\
  (default "var" (Some "fill") <> default "var" None ->
   fst (generateVarId (Some "fill") repeating) <>
   fst (generateVarId None (advance 6 repeating))).
Proof.
  apply (generateVarId_prefix_separates (Some "fill") None repeating (advance 6 repeating)).
  - exact repeating_valid.
  - intros n. apply repeating_valid.
Defined.

(** ** Colors as text: bytes and hundredths *)

Section Numerals.

(** A property checked on every integer below a bound. *)
Lemma checked_below (P : Z -> bool) (bound : nat) :
  forallb (fun i => P (Z.of_nat i)) (seq 0 bound) = true ->
  forall k, 0 <= k < Z.of_nat bound -> P k = true.
Proof.
  intros Hall k Hk. rewrite forallb_forall in Hall.
  rewrite <- (Z2Nat.id k) by lia. apply Hall, in_seq. lia.
Qed.

(** A byte is printed as its decimal numeral. *)
Lemma toString_byte (k : Z) : 0 <= k <= 255 -> Number_toString (Z2f k) = digits_of 10 k.
Proof.
  intros Hk. apply String.eqb_eq.
  apply (checked_below (fun k => String.eqb (Number_toString (Z2f k)) (digits_of 10 k)) 256);
    [vm_compute; reflexivity | lia].
Qed.

(** Reading the two hexadecimal digits of a byte gives the byte. *)
Lemma parseInt16_hex_byte (k : Z) : 0 <= k <= 255 -> parseInt16 (hex_byte k) = Z2f k.
Proof.
  intros Hk. apply Leibniz.eqb_spec.
  apply (checked_below (fun k => Leibniz.eqb (parseInt16 (hex_byte k)) (Z2f k)) 256);
    [vm_compute; reflexivity | lia].
Qed.

Lemma hundredths (j : Z) :
  0 <= j <= 100 ->
  let x := (Z2f j / 100)%float in
  unit_interval x /\ Number_toString x = two_decimals j /\
  (x =? 1)%float = (j =? 100) /\
  Number_toString (Math_min (Math_max x 0) 1) = Number_toString x.
Proof.
  intros Hj x.
  assert (H : hundredth_ok j = true).
  { apply (checked_below hundredth_ok 101); [vm_compute; reflexivity | lia]. }
  unfold hundredth_ok in H. fold x in H.
  repeat (apply andb_prop in H as [H ?]).
  repeat split; try assumption.
  - now apply String.eqb_eq.
  - now apply Bool.eqb_prop.
  - now apply String.eqb_eq.
Qed.

End Numerals.

(** ** Products of Numbers between 0 and 1 *)

Section Opacity.

(** A Number in [[0, 1]] is represented within 1. *)
Lemma unit_within (x : float) : unit_interval x -> within (Prim2SF x) 1.
Proof.
  intros [H0 H1].
  destruct (unit_interval_cases x H0 H1) as [[s Hx]|[->|(m & e & Hx & He & Hm)]].
  - now rewrite Hx.
  - rewrite Prim2SF_one. simpl. split; lia.
  - rewrite Hx. cbn [within]. split; [lia|].
    assert (2 ^ 53 <= 2 ^ (- e)) by (apply Z.pow_le_mono_r; lia). lia.
Qed.

(** A binary64 value within 1 has an exponent of at most [-52]. *)
Lemma within_1_exponent (m : positive) (e : Z) :
  bounded prec emax m e = true -> e <= 0 -> Zpos m <= 2 ^ (- e) -> e <= -52.
Proof.
  intros Hb He Hm. apply bounded_inv in Hb as [Hcan _].
  destruct (Z.le_gt_cases e (-52)) as [|Hgt]; [assumption|].
  pose proof (digits2_bounds m) as [Hlo _].
  assert (Hd : Zpos (digits2_pos m) = 53) by lia.
  rewrite Hd in Hlo. change (53 - 1) with 52 in Hlo.
  assert (2 ^ (- e) < 2 ^ 52) by (apply Z.pow_lt_mono_r; lia). lia.
Qed.

(** The product of a Number within 1 and a Number within [K] is within
    [K]. *)
Lemma mul_within (x y : float) (K : Z) :
  0 < K < 2 ^ 53 -> within (Prim2SF x) 1 -> within (Prim2SF y) K ->
  within (Prim2SF (x * y)) K.
Proof.
  intros HK Hx Hy. rewrite mul_spec.
  pose proof (Prim2SF_valid x) as Hvx.
  destruct (Prim2SF x) as [sx|sx| |sx mx ex]; try contradiction;
    destruct (Prim2SF y) as [sy|sy| |sy my ey]; try contradiction;
    try exact I.
  destruct sx; [contradiction|]. destruct sy; [contradiction|].
  { destruct Hx as [Hex Hmx], Hy as [Hey Hmy]. rewrite Z.mul_1_l in Hmx.
    unfold SF64mul, SFmul. simpl xorb.
    pose proof (pow2_pos (- ex) ltac:(lia)) as Hpx.
    pose proof (pow2_pos (- ey) ltac:(lia)) as Hpy.
    assert (Hpow : 2 ^ (- (ex + ey)) = 2 ^ (- ex) * 2 ^ (- ey)).
    { replace (- (ex + ey)) with (- ex + - ey) by lia. apply Z.pow_add_r; lia. }
    assert (Hle : Zpos (mx * my) <= K * 2 ^ (- (ex + ey))).
    { rewrite Pos2Z.inj_mul, Hpow. nia. }
    destruct (Z.eq_dec (Zpos (mx * my)) (K * 2 ^ (- (ex + ey)))) as [Heq|Hne].
    + destruct K as [|k|k]; try lia.
      destruct (Z2SF_holds k ltac:(lia)) as (mK & eK & _ & HbK & HeK & HmK).
      assert (HeK' : -52 <= eK).
      { pose proof HbK as Hcan. apply bounded_inv in Hcan as [Hcan _].
        pose proof (digits2_bounds mK) as [_ Hhi].
        assert (Zpos (digits2_pos mK) <= 53) by lia.
        assert (2 ^ Zpos (digits2_pos mK) <= 2 ^ 53) by (apply Z.pow_le_mono_r; lia).
        pose proof (pow2_pos (- eK) ltac:(lia)).
        destruct (Z.le_gt_cases (-52) eK) as [|Hlt]; [assumption|].
        assert (2 ^ 53 <= 2 ^ (- eK)) by (apply Z.pow_le_mono_r; lia). nia. }
      pose proof (within_1_exponent mx ex Hvx Hex Hmx) as Hex'.
      rewrite (binary_round_aux_exact false (mx * my) mK (ex + ey) eK HbK); try lia.
      * cbn [within]. split; lia.
      * rewrite Heq, HmK, <- Z.mul_assoc. f_equal.
        symmetry. apply pow2_shift; lia.
    + apply binary_round_aux_upper; lia. }
Qed.

Lemma holds_100 : holds (Prim2SF 100) false 100.
Proof.
  exists 7036874417766400%positive, (-46). repeat split; try reflexivity. lia.
Qed.

Lemma within_holds (x : spec_float) (K : Z) : holds x false K -> within x K.
Proof. intros (m & e & -> & _ & He & Hm). cbn [within]. split; lia. Qed.

(** The rounded percentage of two Numbers in [[0, 1]] is an integer of
    0..100 (or [-0]). *)
Lemma rounded_percent (opacity a : float) :
  unit_interval opacity -> unit_interval a ->
  0 <= percent opacity a <= 100 /\
  (Math_round (opacity * a * 100) = Z2f (percent opacity a) \/
   Math_round (opacity * a * 100) = neg_zero /\ percent opacity a = 0).
Proof.
  intros Ho Ha.
  assert (Hw : within (Prim2SF (opacity * a * 100)) 100).
  { apply mul_within; [lia | | apply within_holds, holds_100].
    apply mul_within; [lia | now apply unit_within | now apply unit_within]. }
  unfold percent.
  destruct (Math_round_within _ 100 ltac:(lia) Hw) as [->|(j & Hj & ->)].
  - split; [simpl; lia|]. right. split; reflexivity.
  - rewrite to_integer_Z2f by lia. split; [assumption | now left].
Qed.

(** The rounded channel of a Number in [[0, 1]] is an integer of 0..255,
    printed as its decimal numeral. *)
Lemma rounded_channel_text (c : float) :
  unit_interval c ->
  0 <= channel c <= 255 /\
  to_integer (Prim2SF (Math_round (c * 255))) = Some (channel c) /\
  Number_toString (Math_round (c * 255)) = digits_of 10 (channel c).
Proof.
  intros [H0 H1].
  pose proof (mul_unit_within c 255 255 ltac:(lia) holds_255 H0 H1) as Hw.
  unfold channel.
  destruct (Math_round_within _ 255 ltac:(lia) Hw) as [->|(k & Hk & ->)].
  - repeat split; simpl; lia.
  - rewrite to_integer_Z2f by lia. repeat split; try lia. now apply toString_byte.
Qed.

(** The opacity [convertColor] and [formatRGBAColor] compute from Numbers in
    [[0, 1]] is the hundredth [j / 100] of the rounded percentage [j]. *)
Lemma opacity_hundredth (opacity a : float) :
  unit_interval opacity -> unit_interval a ->
  let x := (Math_round (opacity * a * 100) / 100)%float in
  unit_interval x /\ Number_toString x = two_decimals (percent opacity a) /\
  (x =? 1)%float = (percent opacity a =? 100) /\
  Number_toString (Math_min (Math_max x 0) 1) = Number_toString x.
Proof.
  intros Ho Ha. destruct (rounded_percent opacity a Ho Ha) as [Hj [->|[-> ->]]].
  - now apply hundredths.
  - vm_compute. repeat split.
Qed.

End Opacity.

(** ** hexToRgba: the notations it reads *)

Section HexNotation.

(** What [hexToRgba] makes of ["#"] and six characters. *)
Lemma hexToRgba_six (c1 c2 c3 c4 c5 c6 : ascii) (opacity : option float) :
  hexToRgba (String "#" (string_of_list_ascii [c1; c2; c3; c4; c5; c6])) opacity =
  "rgba(" ++ Number_toString (parseInt16 (string_of_list_ascii [c1; c2])) ++ ", "
  ++ Number_toString (parseInt16 (string_of_list_ascii [c3; c4])) ++ ", "
  ++ Number_toString (parseInt16 (string_of_list_ascii [c5; c6])) ++ ", "
  ++ Number_toString (Math_min (Math_max (default 1%float opacity) 0) 1) ++ ")".
Proof. reflexivity. Qed.

(** Where there is no ["#"], none is removed. *)
Lemma remove_first_absent (c : ascii) (s : string) :
  ~ In c (list_ascii_of_string s) -> remove_first c s = s.
Proof.
  induction s as [|d s IH]; simpl; intros H; [reflexivity|].
  destruct (Ascii.eqb_spec c d) as [->|_]; [tauto|]. rewrite IH by tauto. reflexivity.
Qed.

(** Two hexadecimal digits are read as the byte they write. *)
Lemma parseInt16_pair (c1 c2 : ascii) (d1 d2 : Z) :
  hex_digit_value c1 = Some d1 -> hex_digit_value c2 = Some d2 ->
  parseInt16 (string_of_list_ascii [c1; c2]) = Z2f (16 * d1 + d2) /\
  0 <= 16 * d1 + d2 <= 255 /\ c1 <> "#"%char /\ c2 <> "#"%char.
Proof.
  intros H1 H2.
  pose proof (nat_ascii_bounded c1) as Hb1. pose proof (nat_ascii_bounded c2) as Hb2.
  assert (Hrow : hex_pairs_ok (Z.of_nat (nat_of_ascii c1)) = true).
  { apply (checked_below hex_pairs_ok 256); [vm_compute; reflexivity | lia]. }
  assert (Hok : hex_pair_ok (Z.of_nat (nat_of_ascii c1)) (Z.of_nat (nat_of_ascii c2)) = true).
  { apply (checked_below (hex_pair_ok (Z.of_nat (nat_of_ascii c1))) 256);
      [exact Hrow | lia]. }
  unfold hex_pair_ok in Hok. rewrite !Nat2Z.id, !ascii_nat_embedding, H1, H2 in Hok.
  repeat (apply andb_prop in Hok as [Hok ?]).
  repeat split; try lia.
  - now apply Leibniz.eqb_spec.
  - intros ->. discriminate.
  - intros ->. discriminate.
Qed.

(** A substring inside the head of a concatenation. *)
Lemma substring_head (s t : string) : forall n m : nat,
  (n + m <= String.length s)%nat -> substring n m (s ++ t) = substring n m s.
Proof.
  induction s as [|c s IH]; intros [|n] [|m] H; simpl in *; try lia; try reflexivity.
  - destruct t; reflexivity.
  - f_equal. apply IH. simpl. lia.
  - apply IH. lia.
  - apply IH. lia.
Qed.

(** A substring that starts at the end or beyond is empty. *)
Lemma substring_beyond (s : string) : forall n m : nat,
  (String.length s <= n)%nat -> substring n m s = EmptyString.
Proof.
  induction s as [|c s IH]; intros [|n] [|m] H; simpl in *; try lia; try reflexivity.
  - apply IH. lia.
  - apply IH. lia.
Qed.

End HexNotation.

(** X6: [hexToRgba] reads ["#"] and six hexadecimal digits, of either case,
    as the three bytes they write: the channels of the result are the
    decimal numerals of [16 * d1 + d2], [16 * d3 + d4] and [16 * d5 + d6],
    each in 0..255, followed by the clamped opacity; the ["#"] may be
    left out. *)
Theorem hexToRgba_channels :
  forall (c1 c2 c3 c4 c5 c6 : ascii) (d1 d2 d3 d4 d5 d6 : Z) (opacity : option float),
    hex_digit_value c1 = Some d1 -> hex_digit_value c2 = Some d2 ->
    hex_digit_value c3 = Some d3 -> hex_digit_value c4 = Some d4 ->
    hex_digit_value c5 = Some d5 -> hex_digit_value c6 = Some d6 ->
    let digits := string_of_list_ascii [c1; c2; c3; c4; c5; c6] in
    hexToRgba (String "#" digits) opacity =
    "rgba(" ++ digits_of 10 (16 * d1 + d2) ++ ", " ++ digits_of 10 (16 * d3 + d4) ++ ", "
    ++ digits_of 10 (16 * d5 + d6) ++ ", "
    ++ Number_toString (Math_min (Math_max (default 1%float opacity) 0) 1) ++ ")" /\
    hexToRgba digits opacity = hexToRgba (String "#" digits) opacity /\
    0 <= 16 * d1 + d2 <= 255 /\ 0 <= 16 * d3 + d4 <= 255 /\ 0 <= 16 * d5 + d6 <= 255.
Proof.
  intros c1 c2 c3 c4 c5 c6 d1 d2 d3 d4 d5 d6 opacity H1 H2 H3 H4 H5 H6 digits.
  destruct (parseInt16_pair c1 c2 d1 d2 H1 H2) as (Hr & Hr255 & Hc1 & Hc2).
  destruct (parseInt16_pair c3 c4 d3 d4 H3 H4) as (Hg & Hg255 & Hc3 & Hc4).
  destruct (parseInt16_pair c5 c6 d5 d6 H5 H6) as (Hb & Hb255 & Hc5 & Hc6).
  repeat split; try lia.
  - unfold digits. rewrite hexToRgba_six, Hr, Hg, Hb, !toString_byte by lia. reflexivity.
  - unfold hexToRgba at 2. cbn [remove_first]. change (Ascii.eqb "#" "#") with true.
    cbv iota. unfold hexToRgba. rewrite remove_first_absent; [reflexivity|].
    unfold digits. simpl. intros [E|[E|[E|[E|[E|[E|[]]]]]]]; contradiction.
Qed.

Lemma hexToRgba_channels_witness :
  hexToRgba "#1e90Ff" (Some 0.5%float) =
  "rgba(" ++ digits_of 10 (16 * 1 + 14) ++ ", " ++ digits_of 10 (16 * 9 + 0) ++ ", "
  ++ digits_of 10 (16 * 15 + 15) ++ ", "
  ++ Number_toString (Math_min (Math_max (default 1%float (Some 0.5%float)) 0) 1) ++ ")".
Proof.
  apply (hexToRgba_channels "1" "e" "9" "0" "F" "f" 1 14 9 0 15 15 (Some 0.5%float));
    reflexivity.
Defined.

(** X7: the three-digit notation is read as the six-digit notation with
    each digit doubled, whatever the three characters are; and a ["#"] in
    front changes nothing for a string without ["#"]. *)
Theorem hexToRgba_short_notation :
  (forall (c1 c2 c3 : ascii) (opacity : option float),
      hexToRgba (String "#" (string_of_list_ascii [c1; c2; c3])) opacity =
      hexToRgba (String "#" (doubled c1 c2 c3)) opacity) /\
  (forall (hex : string) (opacity : option float),
      ~ In "#"%char (list_ascii_of_string hex) ->
      hexToRgba (String "#" hex) opacity = hexToRgba hex opacity).
Proof.
  split.
  - intros c1 c2 c3 opacity. reflexivity.
  - intros hex opacity Hhex. unfold hexToRgba at 1. cbn [remove_first].
    change (Ascii.eqb "#" "#") with true. cbv iota.
    unfold hexToRgba. now rewrite remove_first_absent.
Qed.

Lemma hexToRgba_short_notation_witness :
  hexToRgba (String "#" "fa0") None = hexToRgba "fa0" None.
Proof.
  apply (proj2 hexToRgba_short_notation "fa0" None).
  simpl. intros [H|[H|[H|[]]]]; discriminate H.
Defined.

(** X8: [hexToRgba] reads six characters and no more: what follows the sixth
    character (the alpha of an eight-digit notation) is ignored; and of a
    string of at most four characters other than the three-digit notation
    (so the four-digit notation with alpha) the blue channel is NaN. *)
Theorem hexToRgba_other_lengths :
  (forall (six rest : string) (opacity : option float),
      String.length six = 6%nat ->
      hexToRgba (String "#" (six ++ rest)) opacity = hexToRgba (String "#" six) opacity) /\
  (forall (hex : string) (opacity : option float),
      (String.length hex <= 4)%nat -> String.length hex <> 3%nat ->
      exists r g : float,
        hexToRgba (String "#" hex) opacity =
        "rgba(" ++ Number_toString r ++ ", " ++ Number_toString g ++ ", NaN, "
        ++ Number_toString (Math_min (Math_max (default 1%float opacity) 0) 1) ++ ")").
Proof.
  split.
  - intros six rest opacity Hsix. unfold hexToRgba. cbn [remove_first].
    change (Ascii.eqb "#" "#") with true. cbv iota.
    assert (E1 : (String.length (six ++ rest) =? 3)%nat = false)
      by (rewrite length_append, Hsix; reflexivity).
    assert (E2 : (String.length six =? 3)%nat = false) by (rewrite Hsix; reflexivity).
    rewrite E1, E2, !substring_head by lia. reflexivity.
  - intros hex opacity Hlen Hthree. unfold hexToRgba. cbn [remove_first].
    change (Ascii.eqb "#" "#") with true. cbv iota.
    apply Nat.eqb_neq in Hthree. rewrite Hthree, (substring_beyond hex 4 2) by assumption.
    do 2 eexists. reflexivity.
Qed.

Lemma hexToRgba_other_lengths_witness :
  hexToRgba (String "#" ("1e90ff" ++ "80")) None = hexToRgba (String "#" "1e90ff") None /\
  exists r g : float,
    hexToRgba (String "#" "f0a8") None =
    "rgba(" ++ Number_toString r ++ ", " ++ Number_toString g ++ ", NaN, "
    ++ Number_toString (Math_min (Math_max (default 1%float None) 0) 1) ++ ")".
Proof.
  split.
  - apply (proj1 hexToRgba_other_lengths "1e90ff" "80" None). reflexivity.
  - apply (proj2 hexToRgba_other_lengths "f0a8" None); [simpl; lia | discriminate].
Defined.

(** ** Colors in [[0, 1]]: what convertColor, formatRGBAColor and parsePaint give *)

Section UnitColors.

(** The hex string of a color with channels in [[0, 1]]. *)
Lemma convertColor_hex (color : RGBA.t) (opacity : option float) :
  unit_interval (RGBA.r color) -> unit_interval (RGBA.g color) ->
  unit_interval (RGBA.b color) ->
  ColorValue.hex (convertColor color opacity) =
  css_hex (channel (RGBA.r color)) (channel (RGBA.g color)) (channel (RGBA.b color)).
Proof.
  intros Hr Hg Hb. unfold channel.
  destruct (rounded_channel _ Hr) as (r & Hr255 & -> & Hr16 & _ & _).
  destruct (rounded_channel _ Hg) as (g & Hg255 & -> & _ & Hg8 & _).
  destruct (rounded_channel _ Hb) as (b & Hb255 & -> & _ & _ & Hbadd).
  unfold convertColor, css_hex. cbn [ColorValue.hex]. f_equal.
  rewrite Hr16, Hg8. change (shl 1 24) with (Z2f 16777216).
  rewrite !add_exact by lia. rewrite Hbadd by lia.
  rewrite Number_toString16_Z2f by lia.
  rewrite digits_of_rgb by lia. cbn [slice1 toUpperCase].
  assert (Hdiv : forall k, 0 <= k <= 255 -> 0 <= k / 16 < 16).
  { intros k Hk. split; [apply Z.div_pos | apply Z.div_lt_upper_bound]; lia. }
  assert (Hmod : forall k, 0 <= k mod 16 < 16) by (intros k; apply Z.mod_pos_bound; lia).
  rewrite !upper_digit_char by auto. reflexivity.
Qed.

(** The string [formatRGBAColor] gives of a color in [[0, 1]] under an
    opacity in [[0, 1]]. *)
Lemma formatRGBAColor_text (color : RGBA.t) (opacity : option float) :
  unit_color color -> unit_interval (default 1%float opacity) ->
  formatRGBAColor color opacity =
  css_rgba (channel (RGBA.r color)) (channel (RGBA.g color)) (channel (RGBA.b color))
           (percent (default 1%float opacity) (RGBA.a color)).
Proof.
  intros (Hr & Hg & Hb & Ha) Ho.
  destruct (rounded_channel_text _ Hr) as (_ & _ & Hrt).
  destruct (rounded_channel_text _ Hg) as (_ & _ & Hgt).
  destruct (rounded_channel_text _ Hb) as (_ & _ & Hbt).
  destruct (opacity_hundredth _ _ Ho Ha) as (_ & Hat & _ & _).
  unfold formatRGBAColor, css_rgba. cbv zeta. now rewrite Hrt, Hgt, Hbt, Hat.
Qed.

Lemma unit_color_teal : unit_color teal.
Proof. repeat split. Qed.

End UnitColors.

(** X9: for an opacity (1 when absent) and an alpha in [[0, 1]], the
    opacity [convertColor] returns is in [[0, 1]]; it is the hundredth
    [j / 100] of the integer [j = round (opacity * a * 100)] of 0..100,
    printed with at most two digits after the point; and it is 1 exactly
    when [j] is 100. *)
Theorem convertColor_opacity_range :
  forall (color : RGBA.t) (opacity : option float),
    unit_interval (default 1%float opacity) -> unit_interval (RGBA.a color) ->
    let x := ColorValue.opacity (convertColor color opacity) in
    let j := percent (default 1%float opacity) (RGBA.a color) in
    0 <= j <= 100 /\ unit_interval x /\
    Number_toString x = two_decimals j /\
    ((x =? 1)%float = true <-> j = 100).
Proof.
  intros color opacity Ho Ha x j.
  destruct (rounded_percent _ _ Ho Ha) as [Hj _].
  destruct (opacity_hundredth _ _ Ho Ha) as (Hunit & Htext & Hone & _).
  repeat split; try apply Hj; try apply Hunit; try exact Htext.
  - intros H. apply Z.eqb_eq. unfold j. rewrite <- Hone. exact H.
  - intros H. unfold x, convertColor. cbn [ColorValue.opacity].
    rewrite Hone. now apply Z.eqb_eq.
Qed.

Lemma convertColor_opacity_range_witness :
  0 <= percent (default 1%float (Some 0.5%float)) (RGBA.a teal) <= 100 /\
  unit_interval (ColorValue.opacity (convertColor teal (Some 0.5%float))) /\
  Number_toString (ColorValue.opacity (convertColor teal (Some 0.5%float))) =
  two_decimals (percent (default 1%float (Some 0.5%float)) (RGBA.a teal)) /\
  ((ColorValue.opacity (convertColor teal (Some 0.5%float)) =? 1)%float = true <->
   percent (default 1%float (Some 0.5%float)) (RGBA.a teal) = 100).
Proof.
  apply (convertColor_opacity_range teal (Some 0.5%float)); split; reflexivity.
Defined.

(** X10: for a color and an opacity in [[0, 1]], [formatRGBAColor] gives a
    CSS color [rgba(r, g, b, a)] whose r, g, b are the decimal numerals of
    the rounded channels, integers of 0..255, and whose a is the decimal
    numeral of [j / 100], [j] the integer [round (opacity * a * 100)] of
    0..100, with at most two digits after the point. *)
Theorem formatRGBAColor_css :
  forall (color : RGBA.t) (opacity : option float),
    unit_color color -> unit_interval (default 1%float opacity) ->
    let r := channel (RGBA.r color) in
    let g := channel (RGBA.g color) in
    let b := channel (RGBA.b color) in
    let j := percent (default 1%float opacity) (RGBA.a color) in
    formatRGBAColor color opacity = css_rgba r g b j /\
    to_integer (Prim2SF (Math_round (RGBA.r color * 255))) = Some r /\
    to_integer (Prim2SF (Math_round (RGBA.g color * 255))) = Some g /\
    to_integer (Prim2SF (Math_round (RGBA.b color * 255))) = Some b /\
    0 <= r <= 255 /\ 0 <= g <= 255 /\ 0 <= b <= 255 /\ 0 <= j <= 100.
Proof.
  intros color opacity Hcolor Ho r g b j.
  split; [now apply formatRGBAColor_text|].
  destruct Hcolor as (Hr & Hg & Hb & Ha).
  destruct (rounded_channel_text _ Hr) as (Hr255 & Hri & _).
  destruct (rounded_channel_text _ Hg) as (Hg255 & Hgi & _).
  destruct (rounded_channel_text _ Hb) as (Hb255 & Hbi & _).
  destruct (rounded_percent _ _ Ho Ha) as [Hj _].
  repeat split; try assumption; try apply Hr255; try apply Hg255; try apply Hb255;
    apply Hj.
Qed.

Lemma formatRGBAColor_css_witness :
  formatRGBAColor teal (Some 0.5%float) = "rgba(32, 128, 191, 0.25)".
Proof.
  rewrite (proj1 (formatRGBAColor_css teal (Some 0.5%float) unit_color_teal
                    (conj eq_refl eq_refl))).
  vm_compute. reflexivity.
Defined.

(** X11: the two ways to an rgba string agree on colors and opacities in
    [[0, 1]]: [hexToRgba] applied to the hex string and the opacity that
    [convertColor] returns gives the string [formatRGBAColor] gives. *)
Theorem hexToRgba_convertColor :
  forall (color : RGBA.t) (opacity : option float),
    unit_color color -> unit_interval (default 1%float opacity) ->
    hexToRgba (ColorValue.hex (convertColor color opacity))
              (Some (ColorValue.opacity (convertColor color opacity))) =
    formatRGBAColor color opacity.
Proof.
  intros color opacity Hcolor Ho.
  rewrite formatRGBAColor_text by assumption.
  destruct Hcolor as (Hr & Hg & Hb & Ha).
  rewrite convertColor_hex by assumption.
  destruct (rounded_channel_text _ Hr) as (Hr255 & _ & _).
  destruct (rounded_channel_text _ Hg) as (Hg255 & _ & _).
  destruct (rounded_channel_text _ Hb) as (Hb255 & _ & _).
  destruct (opacity_hundredth _ _ Ho Ha) as (_ & Htext & _ & Hclamp).
  unfold css_hex, hex_byte. cbn [append].
  change (hexToRgba (String "#" (String ?c1 (String ?c2 (String ?c3 (String ?c4
            (String ?c5 (String ?c6 EmptyString))))))) ?o)
    with (hexToRgba (String "#" (string_of_list_ascii [c1; c2; c3; c4; c5; c6])) o).
  rewrite hexToRgba_six. cbn [default string_of_list_ascii].
  fold (hex_byte (channel (RGBA.r color))). fold (hex_byte (channel (RGBA.g color))).
  fold (hex_byte (channel (RGBA.b color))).
  rewrite !parseInt16_hex_byte, !toString_byte by assumption.
  unfold convertColor. cbn [ColorValue.opacity]. rewrite Hclamp, Htext. reflexivity.
Qed.

Lemma hexToRgba_convertColor_witness :
  hexToRgba (ColorValue.hex (convertColor teal (Some 0.5%float)))
            (Some (ColorValue.opacity (convertColor teal (Some 0.5%float)))) =
  formatRGBAColor teal (Some 0.5%float).
Proof.
  apply (hexToRgba_convertColor teal (Some 0.5%float) unit_color_teal (conj eq_refl eq_refl)).
Defined.

(** X12: of a [SOLID] paint whose color and opacity (1 when absent) are in
    [[0, 1]], [parsePaint] returns a CSS color and never throws: the hex
    color [#RRGGBB] of the rounded channels exactly when
    [round (opacity * a * 100)] is 100, and otherwise an rgba color with
    those channels and an alpha that again is a hundredth of 0..100, in
    [[0, 1]]. *)
Theorem parsePaint_solid_css :
  forall (color : RGBA.t) (opacity : option float),
    unit_color color -> unit_interval (default 1%float opacity) ->
    let r := channel (RGBA.r color) in
    let g := channel (RGBA.g color) in
    let b := channel (RGBA.b color) in
    let combined := ColorValue.opacity (convertColor color opacity) in
    parsePaint (solid_paint color opacity) =
    Return (FillColor
              (if percent (default 1%float opacity) (RGBA.a color) =? 100
               then css_hex r g b
               else css_rgba r g b (percent combined (RGBA.a color)))) /\
    0 <= r <= 255 /\ 0 <= g <= 255 /\ 0 <= b <= 255 /\
    0 <= percent combined (RGBA.a color) <= 100.
Proof.
  intros color opacity Hcolor Ho r g b combined.
  pose proof Hcolor as (Hr & Hg & Hb & Ha).
  destruct (opacity_hundredth _ _ Ho Ha) as (Hunit & _ & Hone & _).
  change (Math_round (default 1 opacity * RGBA.a color * 100) / 100)%float
    with combined in Hunit, Hone.
  destruct (rounded_channel_text _ Hr) as (Hr255 & _ & _).
  destruct (rounded_channel_text _ Hg) as (Hg255 & _ & _).
  destruct (rounded_channel_text _ Hb) as (Hb255 & _ & _).
  destruct (rounded_percent combined (RGBA.a color) Hunit Ha) as [Hj _].
  split; [|repeat split; try apply Hr255; try apply Hg255; try apply Hb255; apply Hj].
  unfold parsePaint, solid_paint. cbn [Paint.type Paint.color Paint.opacity].
  change (String.eqb "SOLID" "IMAGE") with false.
  change (String.eqb "SOLID" "SOLID") with true. cbv iota.
  fold combined. rewrite Hone.
  destruct (percent (default 1%float opacity) (RGBA.a color) =? 100).
  - now rewrite convertColor_hex.
  - now rewrite (formatRGBAColor_text color (Some combined)).
Qed.

Lemma parsePaint_solid_css_witness :
  parsePaint (solid_paint teal (Some 0.5%float)) = Return (FillColor "rgba(32, 128, 191, 0.13)").
Proof.
  rewrite (proj1 (parsePaint_solid_css teal (Some 0.5%float) unit_color_teal
                    (conj eq_refl eq_refl))).
  vm_compute. reflexivity.
Defined.

(** ** The configuration: maskApiKey and getServerConfig *)

Section Config.

Lemma substring_all (t : string) : substring 0 (String.length t) t = t.
Proof. induction t as [|c t IH]; simpl; [reflexivity | now rewrite IH]. Qed.

Lemma substring_append (s t : string) (n : nat) :
  substring (String.length s) n (s ++ t) = substring 0 n t.
Proof. induction s as [|c s IH]; simpl; [reflexivity | exact IH]. Qed.

Lemma length_substring (n m : nat) (s : string) :
  (String.length (substring n m s) <= m)%nat.
Proof.
  revert n m. induction s as [|c s IH]; intros [|n] [|m]; simpl; try lia.
  - specialize (IH 0%nat m). lia.
  - apply (IH n 0%nat).
  - apply (IH n (S m)).
Qed.

(** The last four characters of a longer string. *)
Lemma slice_last_append (head tail : string) :
  slice_last (String.length tail) (head ++ tail) = tail.
Proof.
  unfold slice_last. rewrite length_append.
  replace (String.length head + String.length tail - String.length tail)%nat
    with (String.length head) by lia.
  rewrite substring_append.
  replace (String.length head + String.length tail - String.length head)%nat
    with (String.length tail) by lia.
  apply substring_all.
Qed.

Lemma dec_digit_char (d : Z) : 0 <= d < 10 -> dec_digit_value (digit_char d) = Some d.
Proof.
  intros H.
  assert (Hd : d = 0 \/ d = 1 \/ d = 2 \/ d = 3 \/ d = 4 \/ d = 5 \/ d = 6 \/ d = 7 \/
               d = 8 \/ d = 9) by lia.
  repeat (destruct Hd as [->|Hd]; [reflexivity|]). now subst.
Qed.

Lemma to_radix_step (fuel : nat) (radix n : Z) (acc : string) :
  to_radix (S fuel) radix n acc =
  if n / radix =? 0 then String (digit_char (n mod radix)) acc
  else to_radix fuel radix (n / radix) (String (digit_char (n mod radix)) acc).
Proof. reflexivity. Qed.

(** Reading the digits [to_radix] has written gives the number back. *)
Lemma parse_to_radix (fuel : nat) : forall (n : Z) (acc : string) (a : option Z),
  0 <= n < 10 ^ Z.of_nat (S fuel) ->
  exists L, 0 <= L /\
    parse_dec_digits (to_radix (S fuel) 10 n acc) a =
    parse_dec_digits acc (Some (match a with Some v => v | None => 0 end * 10 ^ L + n)).
Proof.
  assert (Hlast : forall n acc a, 0 <= n -> n / 10 = 0 ->
    parse_dec_digits (String (digit_char (n mod 10)) acc) a =
    parse_dec_digits acc (Some (match a with Some v => v | None => 0 end * 10 ^ 1 + n))).
  { intros n acc a Hn Hq. cbn [parse_dec_digits].
    rewrite dec_digit_char by (apply Z.mod_pos_bound; lia).
    do 2 f_equal. rewrite Z.pow_1_r. pose proof (Z.div_mod n 10 ltac:(lia)). lia. }
  induction fuel as [|fuel IH]; intros n acc a Hn.
  - exists 1. split; [lia|]. rewrite to_radix_step.
    assert (Hq : n / 10 = 0) by (apply Z.div_small; change (10 ^ Z.of_nat 1) with 10 in Hn; lia).
    rewrite Hq. cbn [Z.eqb]. apply Hlast; lia.
  - rewrite to_radix_step. destruct (Z.eqb_spec (n / 10) 0) as [Hq|Hq].
    + exists 1. split; [lia|]. apply Hlast; lia.
    + destruct (IH (n / 10) (String (digit_char (n mod 10)) acc) a) as (L & HL & Hparse).
      { split; [apply Z.div_pos; lia|]. apply Z.div_lt_upper_bound; [lia|].
        replace (Z.of_nat (S (S fuel))) with (1 + Z.of_nat (S fuel)) in Hn by lia.
        rewrite Z.pow_add_r in Hn by lia. exact (proj2 Hn). }
      exists (L + 1). split; [lia|].
      rewrite Hparse. cbn [parse_dec_digits].
      rewrite dec_digit_char by (apply Z.mod_pos_bound; lia).
      do 2 f_equal. rewrite Z.pow_add_r, Z.pow_1_r by lia.
      pose proof (Z.div_mod n 10 ltac:(lia)). lia.
Qed.

(** What [to_radix] writes begins with a digit. *)
Lemma to_radix_head (fuel : nat) : forall (n : Z) (acc : string),
  0 <= n ->
  exists d rest, 0 <= d < 10 /\ to_radix (S fuel) 10 n acc = String (digit_char d) rest.
Proof.
  induction fuel as [|fuel IH]; intros n acc Hn; rewrite to_radix_step.
  - exists (n mod 10), acc. split; [apply Z.mod_pos_bound; lia|].
    destruct (n / 10 =? 0); reflexivity.
  - destruct (n / 10 =? 0).
    + exists (n mod 10), acc. split; [apply Z.mod_pos_bound; lia | reflexivity].
    + apply IH. apply Z.div_pos; lia.
Qed.

(** [parseInt(String(n), 10)] is [n], for a non-negative integer written in
    decimal digits. *)
Lemma parseInt10_digits (n : Z) : 0 <= n -> parseInt10 (digits_of 10 n) = Z2f n.
Proof.
  intros Hn. unfold digits_of.
  destruct (to_radix_head (Z.to_nat (Z.log2 n)) n EmptyString Hn) as (d & rest & Hd & Hhead).
  destruct (parse_to_radix (Z.to_nat (Z.log2 n)) n EmptyString None) as (L & _ & Hparse).
  { split; [assumption|]. rewrite Nat2Z.inj_succ, Z2Nat.id by apply Z.log2_nonneg.
    destruct (Z.eq_dec n 0) as [->|Hn0]; [reflexivity|].
    apply Z.lt_le_trans with (2 ^ Z.succ (Z.log2 n)).
    - apply Z.log2_spec. lia.
    - apply Z.pow_le_mono_l. lia. }
  unfold parseInt10. rewrite Hhead in *.
  assert (Hchar : is_white_space (digit_char d) = false /\
                  digit_char d <> "-"%char /\ digit_char d <> "+"%char).
  { assert (Hd' : d = 0 \/ d = 1 \/ d = 2 \/ d = 3 \/ d = 4 \/ d = 5 \/ d = 6 \/ d = 7 \/
                 d = 8 \/ d = 9) by lia.
    repeat (destruct Hd' as [->|Hd']; [repeat split; (reflexivity || discriminate)|]).
    subst. repeat split; (reflexivity || discriminate). }
  destruct Hchar as (Hws & Hminus & Hplus).
  cbn [trim_start]. rewrite Hws.
  assert (Hsign :
    match String (digit_char d) rest with
    | String "-" r => (true, r)
    | String "+" r => (false, r)
    | _ => (false, String (digit_char d) rest)
    end = (false, String (digit_char d) rest)).
  { destruct (digit_char d) as [[] [] [] [] [] [] [] []]; try reflexivity;
      [now elim Hminus | now elim Hplus]. }
  rewrite Hsign, Hparse. simpl. reflexivity.
Qed.

End Config.

(** X13: [maskApiKey] shows at most the last four characters of a key: a key
    of at most four characters is masked entirely, and of a longer one the
    mask is four stars and the last four characters, whatever precedes
    them; the mask has four to eight characters. *)
Theorem maskApiKey_reveals_last_four :
  (forall key, (String.length key <= 4)%nat -> maskApiKey key = "****") /\
  (forall head tail, head <> "" -> String.length tail = 4%nat ->
                     maskApiKey (head ++ tail) = "****" ++ tail) /\
  (forall key, (4 <= String.length (maskApiKey key) <= 8)%nat).
Proof.
  unfold maskApiKey. repeat split.
  - intros key H. apply Nat.leb_le in H. now rewrite H.
  - intros head tail Hhead Htail. rewrite length_append, Htail.
    destruct head as [|c head]; [now elim Hhead|]. cbn [String.length].
    destruct (Nat.leb_spec (S (String.length head) + 4) 4); [lia|].
    rewrite <- Htail. now rewrite (slice_last_append (String c head) tail).
  - destruct (String.length key <=? 4)%nat; simpl; lia.
  - destruct (String.length key <=? 4)%nat; simpl; [lia|].
    unfold slice_last.
    pose proof (length_substring (String.length key - 4)
                  (String.length key - (String.length key - 4)) key). lia.
Qed.

Lemma maskApiKey_reveals_last_four_witness :
  maskApiKey "key" = "****" /\
  maskApiKey ("figd_0123456789" ++ "wxyz") = "****" ++ "wxyz".
Proof.
  split.
  - apply (proj1 maskApiKey_reveals_last_four). simpl. lia.
  - apply (proj1 (proj2 maskApiKey_reveals_last_four)); [discriminate | reflexivity].
Defined.

(** X14: [getServerConfig] ends the process with code 1, after one message
    on the error stream, when neither [--figma-api-key] nor [FIGMA_API_KEY]
    is a non-empty string; otherwise it returns a configuration whose key is
    not empty: the key of the command line when there is one, with source
    ["cli"], and else that of the environment, with source ["env"]. *)
Theorem getServerConfig_key :
  forall (argv : CliArgs.t) (env : Env.t) (isStdioMode : bool),
    (truthy_string (CliArgs.figma_api_key argv) = false ->
     truthy_string (Env.FIGMA_API_KEY env) = false ->
     exists message, getServerConfig argv env isStdioMode = ([console_error message], Exits 1)) /\
    (forall key, CliArgs.figma_api_key argv = Some key -> key <> "" ->
     exists out config,
       getServerConfig argv env isStdioMode = (out, Returns config) /\
       ServerConfig.figmaApiKey config = key /\
       ConfigSources.figmaApiKey (ServerConfig.configSources config) = "cli") /\
    (forall key, truthy_string (CliArgs.figma_api_key argv) = false ->
     Env.FIGMA_API_KEY env = Some key -> key <> "" ->
     exists out config,
       getServerConfig argv env isStdioMode = (out, Returns config) /\
       ServerConfig.figmaApiKey config = key /\
       ConfigSources.figmaApiKey (ServerConfig.configSources config) = "env") /\
    (forall out config, getServerConfig argv env isStdioMode = (out, Returns config) ->
     ServerConfig.figmaApiKey config <> "") /\
    (forall out code, getServerConfig argv env isStdioMode = (out, Exits code) ->
     code = 1 /\ truthy_string (CliArgs.figma_api_key argv) = false /\
     truthy_string (Env.FIGMA_API_KEY env) = false).
Proof.
  intros [cliKey cliPort] [envKey envPort] isStdioMode.
  unfold getServerConfig. cbn [CliArgs.figma_api_key CliArgs.port Env.FIGMA_API_KEY Env.PORT].
  destruct (if truthy_number cliPort then (default 3333%float cliPort, "cli")
            else if truthy_string envPort then (parseInt10 (default "" envPort), "env")
            else (3333%float, "default")) as [port portSource].
  split; [|split; [|split; [|split]]].
  - intros -> ->. eexists. reflexivity.
  - intros key -> Hkey. destruct key as [|c key]; [now elim Hkey|].
    do 2 eexists. cbn. repeat split.
  - intros key -> -> Hkey. destruct key as [|c key]; [now elim Hkey|].
    do 2 eexists. cbn. repeat split.
  - intros out config.
    destruct cliKey as [[|c key]|], envKey as [[|d key']|]; cbn; intros [= _ <-]; discriminate.
  - intros out code.
    destruct cliKey as [[|c key]|], envKey as [[|d key']|]; cbn; intros [= _ <-];
      repeat split.
Qed.

Lemma getServerConfig_key_witness :
  exists out config,
    getServerConfig
      {| CliArgs.figma_api_key := Some "figd_cli"; CliArgs.port := None |}
      {| Env.FIGMA_API_KEY := Some "figd_env"; Env.PORT := None |} false =
    (out, Returns config) /\
    ServerConfig.figmaApiKey config = "figd_cli" /\
    ConfigSources.figmaApiKey (ServerConfig.configSources config) = "cli".
Proof.
  apply (proj1 (proj2 (getServerConfig_key
           {| CliArgs.figma_api_key := Some "figd_cli"; CliArgs.port := None |}
           {| Env.FIGMA_API_KEY := Some "figd_env"; Env.PORT := None |} false)) "figd_cli");
    [reflexivity | discriminate].
Defined.

(** X15: the port of a returned configuration is the [--port] argument when
    that is a Number other than [0] and NaN (source ["cli"]); else, when
    [PORT] is the decimal numeral of an integer [n] with [0 <= n < 2^53],
    the Number that is exactly [n] (source ["env"]); and [3333] (source
    ["default"]) when [--port] is absent, [0] or NaN and [PORT] is absent or
    empty. *)
Theorem getServerConfig_port :
  forall (argv : CliArgs.t) (env : Env.t) (isStdioMode : bool)
         (out : list output) (config : ServerConfig.t),
    getServerConfig argv env isStdioMode = (out, Returns config) ->
    (forall p, CliArgs.port argv = Some p -> (p =? 0)%float = false -> is_nan p = false ->
     ServerConfig.port config = p /\
     ConfigSources.port (ServerConfig.configSources config) = "cli") /\
    (forall n, truthy_number (CliArgs.port argv) = false -> 0 <= n < 2 ^ 53 ->
     Env.PORT env = Some (digits_of 10 n) ->
     to_integer (Prim2SF (ServerConfig.port config)) = Some n /\
     ServerConfig.port config = Z2f n /\
     ConfigSources.port (ServerConfig.configSources config) = "env") /\
    (truthy_number (CliArgs.port argv) = false -> truthy_string (Env.PORT env) = false ->
     ServerConfig.port config = 3333%float /\
     ConfigSources.port (ServerConfig.configSources config) = "default").
Proof.
  intros [cliKey cliPort] [envKey envPort] isStdioMode out config.
  unfold getServerConfig. cbn [CliArgs.figma_api_key CliArgs.port Env.FIGMA_API_KEY Env.PORT].
  destruct (if truthy_string cliKey then (default "" cliKey, "cli")
            else if truthy_string envKey then (default "" envKey, "env")
            else ("", "env")) as [figmaApiKey keySource].
  destruct (if truthy_number cliPort then (default 3333%float cliPort, "cli")
            else if truthy_string envPort then (parseInt10 (default "" envPort), "env")
            else (3333%float, "default")) as [port portSource] eqn:Hport.
  destruct (truthy_string (Some figmaApiKey)); cbn [negb]; [|intros H; discriminate H].
  intros [= _ <-].
  cbn [ServerConfig.port ServerConfig.configSources ConfigSources.port].
  split; [|split].
  - intros p -> Hp Hnan. cbn [truthy_number] in Hport. rewrite Hp, Hnan in Hport.
    cbn in Hport. injection Hport as <- <-. split; reflexivity.
  - intros n Hcli Hn ->. rewrite Hcli in Hport.
    destruct (to_radix_head (Z.to_nat (Z.log2 n)) n EmptyString (proj1 Hn))
      as (d & rest & _ & Hhead).
    cbn [default] in Hport. rewrite parseInt10_digits in Hport by apply Hn.
    unfold digits_of in Hport. rewrite Hhead in Hport.
    cbn [truthy_string] in Hport. injection Hport as <- <-.
    split; [now apply to_integer_Z2f | split; reflexivity].
  - intros Hcli Henv. rewrite Hcli, Henv in Hport. injection Hport as <- <-.
    split; reflexivity.
Qed.

(** [--port 0] is passed over and [PORT=8080] is read as the Number 8080. *)
Lemma getServerConfig_port_witness :
  exists (out : list output) (config : ServerConfig.t),
    getServerConfig
      {| CliArgs.figma_api_key := None; CliArgs.port := Some 0%float |}
      {| Env.FIGMA_API_KEY := Some "figd_env"; Env.PORT := Some "8080" |} true =
    (out, Returns config) /\
    to_integer (Prim2SF (ServerConfig.port config)) = Some 8080 /\
    ServerConfig.port config = Z2f 8080 /\
    ConfigSources.port (ServerConfig.configSources config) = "env".
Proof.
  do 2 eexists. split; [reflexivity|].
  apply (proj1 (proj2 (getServerConfig_port
           {| CliArgs.figma_api_key := None; CliArgs.port := Some 0%float |}
           {| Env.FIGMA_API_KEY := Some "figd_env"; Env.PORT := Some "8080" |} true
           _ _ eq_refl)) 8080); [reflexivity | split; [lia | reflexivity] | reflexivity].
Defined.

(** X16: in stdio mode [getServerConfig] writes nothing with [console.log]
    (the standard output carries the protocol), and it ends as it does in
    HTTP mode; in HTTP mode, a returned configuration is preceded by four
    lines that show the masked key, the port and their sources. *)
Theorem getServerConfig_stdio_silent :
  forall (argv : CliArgs.t) (env : Env.t),
    snd (getServerConfig argv env true) = snd (getServerConfig argv env false) /\
    (forall line, ~ In (console_log line) (fst (getServerConfig argv env true))) /\
    (forall config, snd (getServerConfig argv env true) = Returns config ->
     fst (getServerConfig argv env true) = []) /\
    (forall config, snd (getServerConfig argv env false) = Returns config ->
     exists heading,
       fst (getServerConfig argv env false) =
       [console_log heading;
        console_log ("- FIGMA_API_KEY: " ++ maskApiKey (ServerConfig.figmaApiKey config)
                     ++ " (来源: "
                     ++ ConfigSources.figmaApiKey (ServerConfig.configSources config) ++ ")");
        console_log ("- PORT: " ++ Number_toString (ServerConfig.port config)
                     ++ " (来源: "
                     ++ ConfigSources.port (ServerConfig.configSources config) ++ ")");
        console_log ""]).
Proof.
  intros [cliKey cliPort] [envKey envPort].
  unfold getServerConfig. cbn [CliArgs.figma_api_key CliArgs.port Env.FIGMA_API_KEY Env.PORT].
  destruct (if truthy_string cliKey then (default "" cliKey, "cli")
            else if truthy_string envKey then (default "" envKey, "env")
            else ("", "env")) as [figmaApiKey keySource].
  destruct (if truthy_number cliPort then (default 3333%float cliPort, "cli")
            else if truthy_string envPort then (parseInt10 (default "" envPort), "env")
            else (3333%float, "default")) as [port portSource].
  destruct (truthy_string (Some figmaApiKey)); cbn [negb fst snd].
  - split; [reflexivity|]. split; [intros line []|]. split; [reflexivity|].
    intros config [= <-]. eexists. reflexivity.
  - split; [reflexivity|]. split; [|split; intros config H; discriminate H].
    intros line [H|[]]. discriminate H.
Qed.

Lemma getServerConfig_stdio_silent_witness :
  fst (getServerConfig
         {| CliArgs.figma_api_key := Some "figd_0123456789wxyz"; CliArgs.port := None |}
         {| Env.FIGMA_API_KEY := None; Env.PORT := None |} true) = [].
Proof.
  apply (proj1 (proj2 (proj2 (getServerConfig_stdio_silent
           {| CliArgs.figma_api_key := Some "figd_0123456789wxyz"; CliArgs.port := None |}
           {| Env.FIGMA_API_KEY := None; Env.PORT := None |})))
         {| ServerConfig.figmaApiKey := "figd_0123456789wxyz"; ServerConfig.port := 3333;
            ServerConfig.configSources :=
              {| ConfigSources.figmaApiKey := "cli"; ConfigSources.port := "default" |} |}).
  reflexivity.
Defined.
